(** * Funding-rate arbitrage strategy: a shallow embedding and its properties

    The development follows [pkg/strategy/funding_rate_arb.go] together with
    the declarations it uses from [pkg/exchange/exchange.go],
    [pkg/notifications/telegram.go] and [config/config.go], the two venues
    of [pkg/exchange] (Lighter and Extended) and the wiring of [cmd/trade].

    Modelling conventions.
    - Go's [float64] is IEEE 754 binary64 as the Standard Library specifies
      it ([SpecFloat], precision 53, [emax] 1024): addition, subtraction,
      multiplication and division round to nearest, ties to even;
      comparisons are the IEEE ones, false on NaN; zeros are signed.  There
      is one NaN: the program never looks at a payload.
    - Go does not specify the order in which [range] visits a map.  The one
      loop over the ledger, in [getTotalPositionValue], visits the entries
      in an order that the runtime picks anew each time; the model takes it
      from the outside world, and assumes only that each entry is visited
      once.
    - A Go result pair [(v, err)] is a [Result]: [Ok v] when [err == nil],
      [Err msg] otherwise.
    - The two venues are values of a type [E] carrying the [Exchange]
      interface.  What a venue answers is decided by an outside world [W]
      that every call may read and change; nothing is assumed about it.
    - The strategy's methods are state transformers over a [Machine]: the
      [Strategy] struct, the outside world, and a chronological trace.  The
      trace records every call that leaves the strategy (venues, notifier)
      and every entry into [executeArbitrage] and [closeArbitrage], each
      stamped with the mutex flag and the ledger as they stand at that
      moment.  The logger is diagnostic output only and is not modelled.
    - [cmd/trade] runs [Run] on a single goroutine and nothing else calls
      the strategy, so the methods are modelled as running one after the
      other; the mutex is kept as a flag so that it can be told whether a
      call is made with the mutex held. *)

From Stdlib Require Import ZArith SpecFloat.
From stdpp Require Import base strings gmap list fin_maps pretty.

Local Open Scope string_scope.
Local Open Scope list_scope.

(** ** [float64] *)

Module f64.

Definition prec : Z := 53.
Definition emax : Z := 1024.

Definition add : spec_float -> spec_float -> spec_float := SFadd prec emax.
Definition sub : spec_float -> spec_float -> spec_float := SFsub prec emax.
Definition mul : spec_float -> spec_float -> spec_float := SFmul prec emax.
Definition div : spec_float -> spec_float -> spec_float := SFdiv prec emax.

(** [math.Abs] and unary minus. *)
Definition abs : spec_float -> spec_float := SFabs.
Definition neg : spec_float -> spec_float := SFopp.

(** Go's [==], [<], [<=], [>] and [>=]. *)
Definition eqb : spec_float -> spec_float -> bool := SFeqb.
Definition ltb : spec_float -> spec_float -> bool := SFltb.
Definition leb : spec_float -> spec_float -> bool := SFleb.
Definition gtb (a b : spec_float) : bool := SFltb b a.
Definition geb (a b : spec_float) : bool := SFleb b a.

Definition is_nan (a : spec_float) : bool :=
  match a with S754_nan => true | _ => false end.

(** The constant [0.0], an integer as a [float64], and the [float64]
    nearest to a decimal fraction [n / d] (both below 2^53), which is what
    Go makes of such a literal. *)
Definition zero : spec_float := S754_zero false.
Definition of_Z (z : Z) : spec_float := binary_normalize prec emax z 0 false.
Definition ratio (n d : Z) : spec_float := div (of_Z n) (of_Z d).

End f64.

Abbreviation float64 := spec_float.

Arguments f64.add : simpl never.
Arguments f64.sub : simpl never.
Arguments f64.mul : simpl never.
Arguments f64.div : simpl never.
Arguments f64.abs : simpl never.
Arguments f64.neg : simpl never.
Arguments f64.eqb : simpl never.
Arguments f64.ltb : simpl never.
Arguments f64.leb : simpl never.
Arguments f64.gtb : simpl never.
Arguments f64.geb : simpl never.
Arguments f64.of_Z : simpl never.
Arguments f64.ratio : simpl never.

Declare Scope f64_scope.
Delimit Scope f64_scope with f64.
Infix "+" := f64.add : f64_scope.
Infix "-" := f64.sub : f64_scope.
Infix "*" := f64.mul : f64_scope.
Infix "/" := f64.div : f64_scope.
Notation "- a" := (f64.neg a) : f64_scope.
Infix "==?" := f64.eqb (at level 70, no associativity) : f64_scope.
Infix "<?" := f64.ltb : f64_scope.
Infix "<=?" := f64.leb : f64_scope.
Infix ">?" := f64.gtb (at level 70, no associativity) : f64_scope.
Infix ">=?" := f64.geb (at level 70, no associativity) : f64_scope.

(** ** The Go runtime *)

Module runtime.

(** One [for ... range] loop over a map: the entries in the order in which
    the loop visits them, each entry once. *)
Class Range (W : Type) := {
  rangeMap : forall {A : Type}, gmap string A -> W -> list (string * A) * W;
  rangeMap_visits : forall {A : Type} (ps : gmap string A) (w : W),
    (rangeMap ps w).1 ≡ₚ map_to_list ps }.

End runtime.

(** ** Package [exchange] *)

Module exchange.

Inductive OrderSide := Buy | Sell.
Inductive OrderType := Limit | Market.

Record Order := mkOrder {
  Order_ID : string;
  Order_Market : string;
  Order_Side : OrderSide;
  Order_Type : OrderType;
  Order_Price : float64;
  Order_Amount : float64;
  Order_Filled : float64;
  Order_Status : string;
  Order_Timestamp : Z }.

Record FundingRate := mkFundingRate {
  FundingRate_Market : string;
  FundingRate_Rate : float64;
  FundingRate_NextTime : Z }.

(** A Go [(T, error)] pair. *)
Inductive Result (A : Type) : Type :=
| Ok (a : A)
| Err (e : string).
Arguments Ok {A} a.
Arguments Err {A} e.

Definition errOf {A} (r : Result A) : option string :=
  match r with Ok _ => None | Err e => Some e end.

(** The [Exchange] interface, restricted to the methods the strategy
    calls.  [W] is the state of the world outside the process. *)
Class Exchange (E W : Type) := {
  Name : E -> string;
  GetFundingRates : E -> W -> Result (list FundingRate) * W;
  PlaceOrder : E -> string -> OrderSide -> OrderType -> float64 -> float64 ->
               W -> Result Order * W;
  ClosePosition : E -> string -> OrderSide -> float64 -> W ->
                  Result Order * W }.

End exchange.

(** ** Package [config] *)

Module config.

Record Config := mkConfig {
  LighterAPIKey : string;
  LighterPrivateKey : string;
  ExtendedAPIKey : string;
  Testnet : bool;
  Markets : list string;
  MinFundingRateDiff : float64;
  PositionSizeUSD : float64;
  MaxPositionUSD : float64 }.

End config.

(** ** Package [strategy] *)

Module strategy.

Section WithExchange.
Context {E W : Type}.

(** [PositionInfo] tracks an open arbitrage position. *)
Record PositionInfo := mkPositionInfo {
  Market : string;
  LongExchange : E;
  ShortExchange : E;
  SizeUSD : float64 }.

(** The [Strategy] struct.  [notifier] tells whether the
    [*TelegramNotifier] is non-nil; [mu] tells whether the mutex is held. *)
Record Strategy := mkStrategy {
  config : config.Config;
  exchange1 : E;
  exchange2 : E;
  notifier : bool;
  positions : gmap string PositionInfo;
  mu : bool }.

Definition NewFundingRateArb (cfg : config.Config) (ex1 ex2 : E)
    (notifier : bool) : Strategy :=
  {| config := cfg; exchange1 := ex1; exchange2 := ex2;
     notifier := notifier; positions := ∅; mu := false |}.

(** What the trace records. *)
Inductive Event :=
| EvGetFundingRates (ex : E)
    (res : exchange.Result (list exchange.FundingRate))
| EvPlaceOrder (ex : E) (market : string) (side : exchange.OrderSide)
    (orderType : exchange.OrderType) (amount price : float64)
    (res : exchange.Result exchange.Order)
| EvClosePosition (ex : E) (market : string) (side : exchange.OrderSide)
    (amount : float64) (res : exchange.Result exchange.Order)
| EvNotify (action exchangeName market : string) (positionSizeUSD : float64)
    (err : option string)
| EvExecuteArbitrage (market : string) (longEx shortEx : E)
    (rateDiff : float64)
| EvCloseArbitrage (position : PositionInfo).

Record Entry := mkEntry {
  event : Event;
  locked : bool;
  ledger : gmap string PositionInfo }.

Record Machine := mkMachine {
  self : Strategy;
  world : W;
  trace : list Entry }.

(** *** The state monad of the methods *)

Definition M (A : Type) : Type := Machine -> A * Machine.

Definition ret {A} (a : A) : M A := fun m => (a, m).

Definition bind {A B} (c : M A) (k : A -> M B) : M B :=
  fun m => let (a, m') := c m in k a m'.

Definition exec {A} (c : M A) (m : Machine) : Machine := snd (c m).

Definition gets {A} (f : Strategy -> A) : M A := fun m => (f (self m), m).

Definition modify (f : Strategy -> Strategy) : M unit :=
  fun m => (tt, {| self := f (self m); world := world m; trace := trace m |}).

Definition set_mu (b : bool) (s : Strategy) : Strategy :=
  {| config := config s; exchange1 := exchange1 s; exchange2 := exchange2 s;
     notifier := notifier s; positions := positions s; mu := b |}.

Definition set_positions (f : gmap string PositionInfo -> gmap string PositionInfo)
    (s : Strategy) : Strategy :=
  {| config := config s; exchange1 := exchange1 s; exchange2 := exchange2 s;
     notifier := notifier s; positions := f (positions s); mu := mu s |}.

Definition stamp (e : Event) (m : Machine) : Entry :=
  {| event := e; locked := mu (self m); ledger := positions (self m) |}.

Definition emit (e : Event) : M unit :=
  fun m => (tt, {| self := self m; world := world m;
                   trace := trace m ++ [stamp e m] |}).

(** [s.mu.Lock()] and [s.mu.Unlock()]. *)
Definition Lock : M unit := modify (set_mu true).
Definition Unlock : M unit := modify (set_mu false).

End WithExchange.

Arguments PositionInfo : clear implicits.
Arguments Strategy : clear implicits.
Arguments Event : clear implicits.
Arguments Entry : clear implicits.
Arguments Machine : clear implicits.

Notation "x <- c1 ;; c2" := (bind c1 (fun x => c2))
(at level 100, c1 at next level, right associativity).
Notation "c1 ;; c2" := (bind c1 (fun _ => c2))
(at level 100, right associativity).

Section Methods.
Context {E W : Type} `{!exchange.Exchange E W} `{!runtime.Range W}.

Local Abbreviation M := (@M E W).

(** *** Calls that leave the strategy *)

Definition callGetFundingRates (ex : E)
    : M (exchange.Result (list exchange.FundingRate)) :=
  fun m =>
    let (r, w) := exchange.GetFundingRates ex (world m) in
    (r, {| self := self m; world := w;
           trace := trace m ++ [stamp (EvGetFundingRates ex r) m] |}).

Definition callPlaceOrder (ex : E) (market : string)
    (side : exchange.OrderSide) (orderType : exchange.OrderType)
    (amount price : float64) : M (exchange.Result exchange.Order) :=
  fun m =>
    let (r, w) :=
      exchange.PlaceOrder ex market side orderType amount price (world m) in
    (r, {| self := self m; world := w;
           trace := trace m ++
             [stamp (EvPlaceOrder ex market side orderType amount price r) m] |}).

Definition callClosePosition (ex : E) (market : string)
    (side : exchange.OrderSide) (amount : float64)
    : M (exchange.Result exchange.Order) :=
  fun m =>
    let (r, w) := exchange.ClosePosition ex market side amount (world m) in
    (r, {| self := self m; world := w;
           trace := trace m ++
             [stamp (EvClosePosition ex market side amount r) m] |}).

(** [TelegramNotifier.SendPositionNotification]: nothing on a nil
    receiver, one message otherwise; a failed send is only logged. *)
Definition SendPositionNotification (action exchangeName market : string)
    (positionSizeUSD : float64) (err : option string) : M unit :=
  tn <- gets notifier ;;
  if tn then emit (EvNotify action exchangeName market positionSizeUSD err)
  else ret tt.

(** *** The strategy's methods *)

(** The loop of [getTotalPositionValue] over the entries in the order in
    which they are visited: [totalValue := 0.0], then
    [totalValue += pos.SizeUSD] for each. *)
Definition sumSizes (visited : list (string * PositionInfo E)) : float64 :=
  foldl (fun totalValue pos => (totalValue + SizeUSD pos.2)%f64) f64.zero
        visited.

(** [getTotalPositionValue]: one [range] over the ledger. *)
Definition getTotalPositionValue : M float64 :=
  fun m =>
    let (visited, w) := runtime.rangeMap (positions (self m)) (world m) in
    (sumSizes visited,
     {| self := self m; world := w; trace := trace m |}).

(** The placeholder price chain written out in both [executeArbitrage]
    and [closeArbitrage]; [None] is the final [else] branch. *)
Definition placeholderPrice (market : string) : option float64 :=
  if String.eqb market "BTC-USD" then Some (f64.of_Z 60000)
  else if String.eqb market "ETH-USD" then Some (f64.of_Z 3000)
  else None.

(** [executeArbitrage] between [s.mu.Lock()] and the deferred unlock.  The
    last step is the [getTotalPositionValue] of the closing log line: its
    result is only printed, but it is one more loop over the ledger. *)
Definition executeArbitrage_locked (market : string) (longEx shortEx : E)
    (rateDiff : float64) : M unit :=
  existing <- gets (fun s => positions s !! market) ;;
  match existing with
  | Some _ => ret tt
  | None =>
    total <- getTotalPositionValue ;;
    cfg <- gets config ;;
    if (total + config.PositionSizeUSD cfg >? config.MaxPositionUSD cfg)%f64
    then ret tt
    else
      match placeholderPrice market with
      | None => ret tt
      | Some currentPrice =>
        let amount := (config.PositionSizeUSD cfg / currentPrice)%f64 in
        longOrder <- callPlaceOrder longEx market exchange.Buy
                       exchange.Market amount currentPrice ;;
        SendPositionNotification "OPEN LONG" (exchange.Name longEx) market
          (config.PositionSizeUSD cfg) (exchange.errOf longOrder) ;;
        match longOrder with
        | exchange.Err _ => ret tt
        | exchange.Ok _ =>
          shortOrder <- callPlaceOrder shortEx market exchange.Sell
                          exchange.Market amount currentPrice ;;
          SendPositionNotification "OPEN SHORT" (exchange.Name shortEx)
            market (config.PositionSizeUSD cfg) (exchange.errOf shortOrder) ;;
          match shortOrder with
          | exchange.Err _ => ret tt
          | exchange.Ok _ =>
            modify (set_positions (insert market
              {| Market := market; LongExchange := longEx;
                 ShortExchange := shortEx;
                 SizeUSD := config.PositionSizeUSD cfg |})) ;;
            _ <- getTotalPositionValue ;;
            ret tt
          end
        end
      end
  end.

Definition executeArbitrage (market : string) (longEx shortEx : E)
    (rateDiff : float64) : M unit :=
  emit (EvExecuteArbitrage market longEx shortEx rateDiff) ;;
  Lock ;;
  executeArbitrage_locked market longEx shortEx rateDiff ;;
  Unlock.

Definition closeArbitrage (position : PositionInfo E) : M unit :=
  emit (EvCloseArbitrage position) ;;
  Lock ;;
  existing <- gets (fun s => positions s !! Market position) ;;
  match existing with
  | None => Unlock
  | Some _ =>
    modify (set_positions (delete (Market position))) ;;
    Unlock ;;
    match placeholderPrice (Market position) with
    | None => ret tt
    | Some currentPrice =>
      let amount := (SizeUSD position / currentPrice)%f64 in
      longClose <- callClosePosition (LongExchange position)
                     (Market position) exchange.Buy amount ;;
      SendPositionNotification "CLOSE LONG"
        (exchange.Name (LongExchange position)) (Market position)
        (SizeUSD position) (exchange.errOf longClose) ;;
      shortClose <- callClosePosition (ShortExchange position)
                      (Market position) exchange.Sell amount ;;
      SendPositionNotification "CLOSE SHORT"
        (exchange.Name (ShortExchange position)) (Market position)
        (SizeUSD position) (exchange.errOf shortClose)
    end
  end.

(** [ratesNMap[r.Market] = r.Rate] over the fetched slice. *)
Definition ratesMap (rates : list exchange.FundingRate)
    : gmap string float64 :=
  foldl (fun acc r =>
           <[exchange.FundingRate_Market r := exchange.FundingRate_Rate r]> acc)
        ∅ rates.

(** The body of the loop over [s.config.Markets] in [checkFundingRates]. *)
Definition evaluateMarket (rates1Map rates2Map : gmap string float64)
    (market : string) : M unit :=
  match rates1Map !! market, rates2Map !! market with
  | Some rate1, Some rate2 =>
    let diff := (rate1 - rate2)%f64 in
    Lock ;;
    found <- gets (fun s => positions s !! market) ;;
    Unlock ;;
    ex1 <- gets exchange1 ;;
    ex2 <- gets exchange2 ;;
    cfg <- gets config ;;
    match found with
    | None =>
      if (f64.abs diff >? config.MinFundingRateDiff cfg)%f64 then
        if (diff >? f64.zero)%f64 then executeArbitrage market ex2 ex1 diff
        else executeArbitrage market ex1 ex2 (- diff)%f64
      else ret tt
    | Some position =>
      let shouldClose := false in
      let shouldClose :=
        if String.eqb (exchange.Name (ShortExchange position))
                      (exchange.Name ex1) && (diff <=? f64.zero)%f64
        then true else shouldClose in
      let shouldClose :=
        if String.eqb (exchange.Name (ShortExchange position))
                      (exchange.Name ex2) && (diff >=? f64.zero)%f64
        then true else shouldClose in
      if shouldClose then closeArbitrage position else ret tt
    end
  | _, _ => ret tt
  end.

Fixpoint forEach {A} (l : list A) (body : A -> M unit) : M unit :=
  match l with
  | [] => ret tt
  | x :: l' => body x ;; forEach l' body
  end.

Definition checkFundingRates : M unit :=
  ex1 <- gets exchange1 ;;
  rates1 <- callGetFundingRates ex1 ;;
  match rates1 with
  | exchange.Err _ => ret tt
  | exchange.Ok rates1 =>
    ex2 <- gets exchange2 ;;
    rates2 <- callGetFundingRates ex2 ;;
    match rates2 with
    | exchange.Err _ => ret tt
    | exchange.Ok rates2 =>
      let rates1Map := ratesMap rates1 in
      let rates2Map := ratesMap rates2 in
      markets <- gets (fun s => config.Markets (config s)) ;;
      forEach markets (evaluateMarket rates1Map rates2Map)
    end
  end.

(** [Run]: the [select] loop, driven by what each [select] receives. *)
Inductive Select := Tick | Stop.

Fixpoint Run (received : list Select) : M unit :=
  match received with
  | [] => ret tt
  | Stop :: _ => ret tt
  | Tick :: rest => checkFundingRates ;; Run rest
  end.

End Methods.

End strategy.

(** ** Observations on traces *)

Section Observations.
Context {E W : Type}.
Import strategy.

(** The entries appended to the trace between two machine states. *)
Definition since (m m' : Machine E W) : list (Entry E) :=
  drop (length (trace m)) (trace m').

Definition is_PlaceOrder (e : Event E) : bool :=
  match e with EvPlaceOrder _ _ _ _ _ _ _ => true | _ => false end.

(** Calls that reach a venue. *)
Definition is_venue_call (e : Event E) : bool :=
  match e with
  | EvGetFundingRates _ _ | EvPlaceOrder _ _ _ _ _ _ _
  | EvClosePosition _ _ _ _ _ => true
  | _ => false
  end.

(** Calls that go over the network: venues and the notifier. *)
Definition is_network_call (e : Event E) : bool :=
  match e with
  | EvExecuteArbitrage _ _ _ _ | EvCloseArbitrage _ => false
  | _ => true
  end.

Definition is_open_trigger (market : string) (e : Event E) : bool :=
  match e with
  | EvExecuteArbitrage mk _ _ _ => String.eqb mk market
  | _ => false
  end.


Definition is_leg_attempt (side : exchange.OrderSide) (e : Event E) : bool :=
  match e, side with
  | EvPlaceOrder _ _ exchange.Buy _ _ _ _, exchange.Buy => true
  | EvPlaceOrder _ _ exchange.Sell _ _ _ _, exchange.Sell => true
  | _, _ => false
  end.

Definition is_leg_success (side : exchange.OrderSide) (e : Event E) : bool :=
  match e with
  | EvPlaceOrder _ _ _ _ _ _ (exchange.Ok _) => is_leg_attempt side e
  | _ => false
  end.

Definition is_leg_failure (side : exchange.OrderSide) (e : Event E) : bool :=
  match e with
  | EvPlaceOrder _ _ _ _ _ _ (exchange.Err _) => is_leg_attempt side e
  | _ => false
  end.

Definition is_close_attempt (side : exchange.OrderSide) (e : Event E) : bool :=
  match e, side with
  | EvClosePosition _ _ exchange.Buy _ _, exchange.Buy => true
  | EvClosePosition _ _ exchange.Sell _ _, exchange.Sell => true
  | _, _ => false
  end.

Definition is_close_failure (side : exchange.OrderSide) (e : Event E) : bool :=
  match e with
  | EvClosePosition _ _ _ _ (exchange.Err _) => is_close_attempt side e
  | _ => false
  end.

Definition occurs (f : Event E -> bool) (tr : list (Entry E)) : bool :=
  existsb (fun en => f (event en)) tr.

Definition absent (f : Event E -> bool) (tr : list (Entry E)) : Prop :=
  Forall (fun en => f (event en) = false) tr.

(** Every position is filed under its own market, and that market has a
    placeholder price. *)
Definition ledger_wf (ps : gmap string (PositionInfo E)) : Prop :=
  forall k p, ps !! k = Some p ->
    Market p = k /\ is_Some (strategy.placeholderPrice k).

(** At most one [PositionInfo] per market. *)
Definition one_per_market (ps : gmap string (PositionInfo E)) : Prop :=
  forall k1 k2 p1 p2,
    ps !! k1 = Some p1 -> ps !! k2 = Some p2 ->
    Market p1 = Market p2 -> k1 = k2 /\ p1 = p2.

(** What must hold of the stamp of an entry: orders are placed with the
    mutex held and no position on file for the market; closing calls are
    made with the mutex released and the entry already gone. *)
Definition entry_ok (en : Entry E) : Prop :=
  ledger_wf (ledger en) /\
  match event en with
  | EvPlaceOrder _ mk _ _ _ _ _ => locked en = true /\ ledger en !! mk = None
  | EvClosePosition _ mk _ _ _ => locked en = false /\ ledger en !! mk = None
  | _ => True
  end.

End Observations.

(** ** Reachable machine states *)

Section Reachability.
Context {E W : Type} `{!exchange.Exchange E W} `{!runtime.Range W}.
Import strategy.

(** A run starts from [NewFundingRateArb] with an empty trace, and then
    performs evaluation cycles; the outside world may change in any way
    at any time.  The states between two iterations of the loop over the
    markets are included, whatever the rates of the cycle are, and so are
    the states in which the loop body has released the mutex and calls
    [executeArbitrage] or [closeArbitrage]. *)
Inductive reachable : Machine E W -> Prop :=
| reachable_new cfg ex1 ex2 tn w :
    reachable {| self := NewFundingRateArb cfg ex1 ex2 tn;
                 world := w; trace := [] |}
| reachable_cycle m :
    reachable m -> reachable (exec checkFundingRates m)
| reachable_evaluate rates1Map rates2Map market m :
    reachable m ->
    reachable (exec (evaluateMarket rates1Map rates2Map market) m)
| reachable_released m :
    reachable m -> reachable (exec Unlock m)
| reachable_world m w :
    reachable m ->
    reachable {| self := self m; world := w; trace := trace m |}.

End Reachability.

(** ** A scripted instance: the two venues of the repository *)

Module sim.

Inductive Venue := Lighter | Extended.

(** What the outside world holds: the quotes of each venue ([None]: the
    query fails), which venue refuses orders, which refuses closings, and
    how many orders it has acknowledged. *)
Record World := mkWorld {
  quotesLighter : option (list exchange.FundingRate);
  quotesExtended : option (list exchange.FundingRate);
  refusesOrders : Venue -> bool;
  refusesCloses : Venue -> bool;
  acknowledged : nat }.

Definition Name (v : Venue) : string :=
  match v with Lighter => "Lighter" | Extended => "Extended" end.

Definition GetFundingRates (v : Venue) (w : World)
    : exchange.Result (list exchange.FundingRate) * World :=
  match (match v with Lighter => quotesLighter w | Extended => quotesExtended w end) with
  | Some rates => (exchange.Ok rates, w)
  | None => (exchange.Err "unexpected status code", w)
  end.

Definition acknowledge (w : World) : World :=
  {| quotesLighter := quotesLighter w; quotesExtended := quotesExtended w;
     refusesOrders := refusesOrders w; refusesCloses := refusesCloses w;
     acknowledged := S (acknowledged w) |}.

Definition PlaceOrder (v : Venue) (market : string)
    (side : exchange.OrderSide) (orderType : exchange.OrderType)
    (amount price : float64) (w : World)
    : exchange.Result exchange.Order * World :=
  if refusesOrders w v then (exchange.Err "order rejected", w)
  else (exchange.Ok (exchange.mkOrder "order" market side orderType price
                       amount f64.zero "OPEN" 0), acknowledge w).

Definition ClosePosition (v : Venue) (market : string)
    (side : exchange.OrderSide) (amount : float64) (w : World)
    : exchange.Result exchange.Order * World :=
  if refusesCloses w v then (exchange.Err "close rejected", w)
  else (exchange.Ok (exchange.mkOrder "close" market side exchange.Market
                       f64.zero amount f64.zero "OPEN" 0), acknowledge w).

#[global] Instance venues : exchange.Exchange Venue World :=
  {| exchange.Name := Name;
     exchange.GetFundingRates := GetFundingRates;
     exchange.PlaceOrder := PlaceOrder;
     exchange.ClosePosition := ClosePosition |}.

(** In the scripted world a loop over a map visits the keys in the order
    of the map's list of entries. *)
#[global] Instance range : runtime.Range World :=
  {| runtime.rangeMap A ps w := (map_to_list ps, w);
     runtime.rangeMap_visits A ps w := Permutation_refl _ |}.

Definition nobody (v : Venue) : bool := false.
Definition only (v0 v : Venue) : bool :=
  match v0, v with
  | Lighter, Lighter | Extended, Extended => true
  | _, _ => false
  end.

Definition quote (market : string) (rate : float64) : exchange.FundingRate :=
  exchange.mkFundingRate market rate 0.

Definition cfg (markets : list string) (minDiff size cap : float64)
    : config.Config :=
  config.mkConfig "" "" "" true markets minDiff size cap.

Definition position (market : string) (longEx shortEx : Venue)
    (size : float64)
    : strategy.PositionInfo Venue :=
  strategy.mkPositionInfo market longEx shortEx size.

(** A strategy wired as [cmd/trade] does (Lighter first, Extended second)
    with a given ledger, no notifier, in a given world. *)
Definition machine (c : config.Config)
    (ps : list (string * strategy.PositionInfo Venue)) (w : World)
    : strategy.Machine Venue World :=
  {| strategy.self := strategy.mkStrategy c Lighter Extended true
                        (list_to_map ps) false;
     strategy.world := w;
     strategy.trace := [] |}.

Definition calm : World := mkWorld (Some []) (Some []) nobody nobody 0.

(** A strategy as [NewFundingRateArb] returns it, wired as [cmd/trade]
    does, with a notifier. *)
Definition fresh (c : config.Config) (w : World)
    : strategy.Machine Venue World :=
  {| strategy.self := strategy.NewFundingRateArb c Lighter Extended true;
     strategy.world := w;
     strategy.trace := [] |}.

Definition quoting (rateLighter rateExtended : float64) : World :=
  mkWorld (Some [quote "BTC-USD" rateLighter])
          (Some [quote "BTC-USD" rateExtended]) nobody nobody 0.

Definition cfgBTC : config.Config :=
  cfg ["BTC-USD"] (f64.ratio 1 10000) (f64.of_Z 20) (f64.of_Z 100).

(** Scenario A: Lighter quotes 0.0005, Extended 0.0001, threshold
    0.0001, nothing on file. *)
Definition scenarioA : strategy.Machine Venue World :=
  fresh cfgBTC (quoting (f64.ratio 5 10000) (f64.ratio 1 10000)).

Definition ratesA1 : gmap string float64 :=
  strategy.ratesMap [quote "BTC-USD" (f64.ratio 5 10000)].
Definition ratesA2 : gmap string float64 :=
  strategy.ratesMap [quote "BTC-USD" (f64.ratio 1 10000)].

(** Scenario B: after the cycle of scenario A the position is on file
    with its short leg on Lighter; the next quotes are 0.0001 and 0.0003,
    so the differential is -0.0002. *)
Definition scenarioB : strategy.Machine Venue World :=
  strategy.exec strategy.checkFundingRates scenarioA.


Definition heldBTC : strategy.PositionInfo Venue :=
  position "BTC-USD" Extended Lighter (f64.of_Z 20).

(** Scenario D: 90 USD already open, 20 USD per position, cap 100. *)
Definition scenarioD : strategy.Machine Venue World :=
  machine (cfg ["BTC-USD"; "ETH-USD"] (f64.ratio 1 10000) (f64.of_Z 20)
             (f64.of_Z 100))
          [("ETH-USD", position "ETH-USD" Lighter Extended (f64.of_Z 90))]
          calm.

(** Scenario E: as scenario A, with Extended (the long venue) refusing
    orders. *)
Definition scenarioE : strategy.Machine Venue World :=
  fresh cfgBTC (mkWorld (Some [quote "BTC-USD" (f64.ratio 5 10000)])
                  (Some [quote "BTC-USD" (f64.ratio 1 10000)])
                  (only Extended) nobody 0).

(** A cycle in which Lighter does not answer. *)
Definition lighterDown : World := mkWorld None (Some []) nobody nobody 0.

(** Scenario B at a moment when Extended, the long venue, refuses
    closings. *)
Definition closingLongFails : strategy.Machine Venue World :=
  {| strategy.self := strategy.self scenarioB;
     strategy.world := mkWorld (Some []) (Some []) nobody (only Extended) 2;
     strategy.trace := strategy.trace scenarioB |}.

(** A market without placeholder price, with and without a position. *)
Definition heldSOL : strategy.PositionInfo Venue :=
  position "SOL-USD" Extended Lighter (f64.of_Z 20).

Definition holdingSOL : strategy.Machine Venue World :=
  machine (cfg ["SOL-USD"] (f64.ratio 1 10000) (f64.of_Z 20) (f64.of_Z 100))
          [("SOL-USD", heldSOL)] calm.

Definition watchingSOL : strategy.Machine Venue World :=
  fresh (cfg ["SOL-USD"] (f64.ratio 1 10000) (f64.of_Z 20) (f64.of_Z 100))
        calm.

End sim.

(** ** The possible outcomes of the two sequences

    Each outcome gives the ledger the sequence leaves behind and the entries
    it appends to the trace after the entry that marks its invocation. *)

Section Outcomes.
Context {E W : Type} `{!exchange.Exchange E W} `{!runtime.Range W}.
Import strategy.

(** The entry of a notification, if a notifier is configured. *)
Definition notified (tn : bool) (lk : bool) (ps : gmap string (PositionInfo E))
    (action exchangeName market : string) (size : float64)
    (err : option string)
    : list (Entry E) :=
  if tn then [mkEntry (EvNotify action exchangeName market size err) lk ps]
  else [].

Definition longOrderEntry (s : Strategy E) (market : string) (longEx : E)
    (price : float64) (res : exchange.Result exchange.Order) : Entry E :=
  mkEntry (EvPlaceOrder longEx market exchange.Buy exchange.Market
             (config.PositionSizeUSD (config s) / price)%f64 price res)
          true (positions s).

Definition shortOrderEntry (s : Strategy E) (market : string) (shortEx : E)
    (price : float64) (res : exchange.Result exchange.Order) : Entry E :=
  mkEntry (EvPlaceOrder shortEx market exchange.Sell exchange.Market
             (config.PositionSizeUSD (config s) / price)%f64 price res)
          true (positions s).

Definition longLeg (s : Strategy E) (market : string) (longEx : E)
    (price : float64) (res : exchange.Result exchange.Order)
    : list (Entry E) :=
  longOrderEntry s market longEx price res ::
  notified (notifier s) true (positions s) "OPEN LONG" (exchange.Name longEx)
    market (config.PositionSizeUSD (config s)) (exchange.errOf res).

Definition shortLeg (s : Strategy E) (market : string) (shortEx : E)
    (price : float64) (res : exchange.Result exchange.Order)
    : list (Entry E) :=
  shortOrderEntry s market shortEx price res ::
  notified (notifier s) true (positions s) "OPEN SHORT"
    (exchange.Name shortEx) market (config.PositionSizeUSD (config s))
    (exchange.errOf res).

Inductive open_outcome (market : string) (longEx shortEx : E)
    (s : Strategy E) (totalValue : float64)
    : gmap string (PositionInfo E) -> list (Entry E) -> Prop :=
| open_duplicate p :
    positions s !! market = Some p ->
    open_outcome market longEx shortEx s totalValue (positions s) []
| open_over_cap :
    positions s !! market = None ->
    (totalValue + config.PositionSizeUSD (config s) >?
       config.MaxPositionUSD (config s))%f64 = true ->
    open_outcome market longEx shortEx s totalValue (positions s) []
| open_no_price :
    positions s !! market = None ->
    (totalValue + config.PositionSizeUSD (config s) >?
       config.MaxPositionUSD (config s))%f64 = false ->
    placeholderPrice market = None ->
    open_outcome market longEx shortEx s totalValue (positions s) []
| open_long_failed price e :
    positions s !! market = None ->
    (totalValue + config.PositionSizeUSD (config s) >?
       config.MaxPositionUSD (config s))%f64 = false ->
    placeholderPrice market = Some price ->
    open_outcome market longEx shortEx s totalValue (positions s)
      (longLeg s market longEx price (exchange.Err e))
| open_short_failed price o e :
    positions s !! market = None ->
    (totalValue + config.PositionSizeUSD (config s) >?
       config.MaxPositionUSD (config s))%f64 = false ->
    placeholderPrice market = Some price ->
    open_outcome market longEx shortEx s totalValue (positions s)
      (longLeg s market longEx price (exchange.Ok o) ++
       shortLeg s market shortEx price (exchange.Err e))
| open_recorded price o1 o2 :
    positions s !! market = None ->
    (totalValue + config.PositionSizeUSD (config s) >?
       config.MaxPositionUSD (config s))%f64 = false ->
    placeholderPrice market = Some price ->
    open_outcome market longEx shortEx s totalValue
      (<[market := {| Market := market; LongExchange := longEx;
                      ShortExchange := shortEx;
                      SizeUSD := config.PositionSizeUSD (config s) |}]>
         (positions s))
      (longLeg s market longEx price (exchange.Ok o1) ++
       shortLeg s market shortEx price (exchange.Ok o2)).

Definition closeLeg (tn : bool) (ps : gmap string (PositionInfo E))
    (action : string) (ex : E) (position : PositionInfo E)
    (side : exchange.OrderSide) (price : float64)
    (res : exchange.Result exchange.Order) : list (Entry E) :=
  mkEntry (EvClosePosition ex (Market position) side
             (SizeUSD position / price)%f64 res) false ps ::
  notified tn false ps action (exchange.Name ex) (Market position)
    (SizeUSD position) (exchange.errOf res).

Inductive close_outcome (position : PositionInfo E) (s : Strategy E)
    : gmap string (PositionInfo E) -> list (Entry E) -> Prop :=
| close_absent :
    positions s !! Market position = None ->
    close_outcome position s (positions s) []
| close_no_price p :
    positions s !! Market position = Some p ->
    placeholderPrice (Market position) = None ->
    close_outcome position s (delete (Market position) (positions s)) []
| close_attempted p price r1 r2 :
    positions s !! Market position = Some p ->
    placeholderPrice (Market position) = Some price ->
    close_outcome position s (delete (Market position) (positions s))
      (closeLeg (notifier s) (delete (Market position) (positions s))
         "CLOSE LONG" (LongExchange position) position exchange.Buy price r1 ++
       closeLeg (notifier s) (delete (Market position) (positions s))
         "CLOSE SHORT" (ShortExchange position) position exchange.Sell price r2).

(** The direction law, read off one entry of the trace: with
    [diff = rate1 - rate2], an entry into the opening sequence carries
    [|diff|] and the venues in the order the sign of [diff] demands, and
    a buy (long) or sell (short) order goes to the venue that sign
    demands.  The magnitude carried is equal to [math.Abs(diff)] as Go's
    [==] has it, and is that very [float64] unless [diff] is the positive
    zero, whose negation is the negative zero. *)
Definition follows_direction (s : Strategy E) (market : string)
    (diff : float64) (en : Entry E) : Prop :=
  match event en with
  | EvExecuteArbitrage mk longEx shortEx rateDiff =>
    mk = market /\
    (rateDiff ==? f64.abs diff)%f64 = true /\
    (diff <> f64.zero -> rateDiff = f64.abs diff) /\
    ((diff >? f64.zero)%f64 = true ->
     longEx = exchange2 s /\ shortEx = exchange1 s) /\
    ((diff <? f64.zero)%f64 = true ->
     longEx = exchange1 s /\ shortEx = exchange2 s)
  | EvPlaceOrder ex mk side _ _ _ _ =>
    mk = market /\
    ((diff >? f64.zero)%f64 = true ->
     ex = match side with
          | exchange.Buy => exchange2 s
          | exchange.Sell => exchange1 s
          end) /\
    ((diff <? f64.zero)%f64 = true ->
     ex = match side with
          | exchange.Buy => exchange1 s
          | exchange.Sell => exchange2 s
          end)
  | _ => True
  end.

(** Nothing but the ledger and the mutex flag ever changes in the struct. *)
Definition same_wiring (s s' : Strategy E) : Prop :=
  config s' = config s /\ exchange1 s' = exchange1 s /\
  exchange2 s' = exchange2 s /\ notifier s' = notifier s.

(** The machine after [s.mu.Unlock()]. *)
Definition released (m : Machine E W) : Machine E W := exec Unlock m.

(** The two ways the venues of the strategy can hold a pair of legs. *)
Definition legs_of (s : Strategy E) (longEx shortEx : E) : Prop :=
  (longEx = exchange2 s /\ shortEx = exchange1 s) \/
  (longEx = exchange1 s /\ shortEx = exchange2 s).

(** Every position on file has its legs on the two venues of the
    strategy. *)
Definition legs_wf (s : Strategy E) : Prop :=
  forall k p, positions s !! k = Some p ->
    legs_of s (LongExchange p) (ShortExchange p).

(** The invariant carried along a run. *)
Definition Inv (m : Machine E W) : Prop :=
  ledger_wf (positions (self m)) /\ Forall entry_ok (trace m) /\
  legs_wf (self m).

End Outcomes.

(** ** Further observations, for the properties of whole cycles and runs *)

Section RunObservations.
Context {E W : Type}.
Import strategy.

(** [size] added to [0.0] [n] times, one after the other: what the loop
    of [getTotalPositionValue] computes on [n] entries of that size. *)
Definition repeated (n : nat) (size : float64) : float64 :=
  Nat.iter n (fun totalValue => (totalValue + size)%f64) f64.zero.

(** The value [getTotalPositionValue] returns in a state. *)
Definition totalIn `{!runtime.Range W} (m : Machine E W) : float64 :=
  sumSizes (runtime.rangeMap (positions (self m)) (world m)).1.

(** The market an entry of the trace is about, if any. *)
Definition event_market (e : Event E) : option string :=
  match e with
  | EvGetFundingRates _ _ => None
  | EvPlaceOrder _ mk _ _ _ _ _ => Some mk
  | EvClosePosition _ mk _ _ _ => Some mk
  | EvNotify _ _ mk _ _ => Some mk
  | EvExecuteArbitrage mk _ _ _ => Some mk
  | EvCloseArbitrage p => Some (Market p)
  end.

Definition is_notify (e : Event E) : bool :=
  match e with EvNotify _ _ _ _ _ => true | _ => false end.

Definition is_fetch (e : Event E) : bool :=
  match e with EvGetFundingRates _ _ => true | _ => false end.

(** The trace without the notifications. *)
Definition quiet (tr : list (Entry E)) : list (Entry E) :=
  List.filter (fun en => negb (is_notify (event en))) tr.

(** How many entries of a kind a trace has. *)
Definition count (f : Event E -> bool) (tr : list (Entry E)) : nat :=
  length (List.filter (fun en => f (event en)) tr).

(** The ticks [Run] receives before the first stop signal. *)
Fixpoint ticks_before_stop (received : list Select) : nat :=
  match received with
  | Tick :: rest => S (ticks_before_stop rest)
  | _ => 0
  end.

(** Two machines that differ in the notifier and the notifications only. *)
Definition same_but_notifier (m1 m2 : Machine E W) : Prop :=
  config (self m1) = config (self m2) /\
  exchange1 (self m1) = exchange1 (self m2) /\
  exchange2 (self m1) = exchange2 (self m2) /\
  positions (self m1) = positions (self m2) /\
  mu (self m1) = mu (self m2) /\
  world m1 = world m2 /\
  quiet (trace m1) = quiet (trace m2).

End RunObservations.

Section RunClosure.
Context {E W : Type} `{!exchange.Exchange E W} `{!runtime.Range W}.
Import strategy.

(** A property of machines that every step of a run keeps: releasing the
    mutex, a query for funding rates, the opening sequence called with the
    two venues of the strategy, the closing sequence called with the
    position on file, and any change of the outside world. *)
Definition step_closed (P : Machine E W -> Prop) : Prop :=
  (forall m, P m -> P (released m)) /\
  (forall m ex r w,
      P m ->
      P {| self := self m; world := w;
           trace := trace m ++ [stamp (EvGetFundingRates ex r) m] |}) /\
  (forall m market longEx shortEx rateDiff,
      legs_of (self m) longEx shortEx ->
      P m -> P (exec (executeArbitrage market longEx shortEx rateDiff) m)) /\
  (forall m market position,
      positions (self m) !! market = Some position ->
      P m -> P (exec (closeArbitrage position) m)) /\
  (forall m w,
      P m -> P {| self := self m; world := w; trace := trace m |}).

(** What a run keeps of its ledger: every entry has the configured size,
    and the test of the cap has passed at every size the ledger has had
    on the way, which are all the sizes up to the present one. *)
Definition sized (cfg : config.Config) (ps : gmap string (PositionInfo E))
    : Prop :=
  (forall k p, ps !! k = Some p -> SizeUSD p = config.PositionSizeUSD cfg) /\
  (forall n, (1 <= n <= size ps)%nat ->
     (repeated n (config.PositionSizeUSD cfg) >?
        config.MaxPositionUSD cfg)%f64 = false).

(** An entry that is about a market is about a configured market that
    both lookups quote. *)
Definition about_quoted (cfg : config.Config) (rates1Map rates2Map : gmap string float64)
    (en : Entry E) : Prop :=
  forall mk, event_market (event en) = Some mk ->
    mk ∈ config.Markets cfg /\
    is_Some (rates1Map !! mk) /\ is_Some (rates2Map !! mk).

(** A market in which the loop body has nothing to do: not quoted by both
    venues; or quoted, free, and with [math.Abs(diff) > MinFundingRateDiff]
    false; or quoted and held, with [diff <= 0] false for a short leg on
    [exchange1] and [diff >= 0] false for a short leg on [exchange2]. *)
Definition calm_market (s : Strategy E) (rates1Map rates2Map : gmap string float64)
    (market : string) : Prop :=
  match rates1Map !! market, rates2Map !! market with
  | Some rate1, Some rate2 =>
    match positions s !! market with
    | None =>
      (f64.abs (rate1 - rate2) >? config.MinFundingRateDiff (config s))%f64
        = false
    | Some p =>
      (ShortExchange p = exchange1 s /\
       (rate1 - rate2 <=? f64.zero)%f64 = false) \/
      (ShortExchange p = exchange2 s /\
       (rate1 - rate2 >=? f64.zero)%f64 = false)
    end
  | _, _ => True
  end.

(** The action a notification names for a call. *)
Definition openAction (side : exchange.OrderSide) : string :=
  match side with
  | exchange.Buy => "OPEN LONG"
  | exchange.Sell => "OPEN SHORT"
  end.

Definition closeAction (side : exchange.OrderSide) : string :=
  match side with
  | exchange.Buy => "CLOSE LONG"
  | exchange.Sell => "CLOSE SHORT"
  end.

(** Whether an entry is the notification of the call recorded in [en]: it
    names the action, the venue and the market of the call and carries the
    error the call returned. *)
Definition reports (en : Entry E) (en' : Entry E) : Prop :=
  match event en with
  | EvPlaceOrder ex mk side _ _ _ r =>
    exists size,
      event en' = EvNotify (openAction side) (exchange.Name ex) mk size
                    (exchange.errOf r)
  | EvClosePosition ex mk side _ r =>
    exists size,
      event en' = EvNotify (closeAction side) (exchange.Name ex) mk size
                    (exchange.errOf r)
  | _ => True
  end.

(** Every order and every close in the trace is followed at once by its
    notification. *)
Fixpoint each_call_reported (tr : list (Entry E)) : Prop :=
  match tr with
  | [] => True
  | en :: rest =>
    (is_PlaceOrder (event en) || is_close_attempt exchange.Buy (event en)
       || is_close_attempt exchange.Sell (event en) = true ->
     match rest with
     | en' :: _ => reports en en'
     | [] => False
     end) /\
    each_call_reported rest
  end.

End RunClosure.

(** ** The venue Lighter and the wiring of [cmd/trade] *)

(** [Lighter], the first of the two venues of [pkg/exchange].  The
    methods that are embedded neither read nor write anything outside the
    struct; what they print on the standard output is left out, and so are
    [GetOrderbook] and [sendRequest], the only users of the HTTP client,
    and the placeholders [GetOrderStatus], [CancelOrder] and [GetBalance],
    which the strategy does not call. *)
Module lighter.
Import exchange.

Definition LighterMainnetBaseURL : string :=
  "https://mainnet.zklighter.elliot.ai".
Definition LighterTestnetBaseURL : string :=
  "https://testnet.zklighter.elliot.ai".

Record Lighter := mkLighter {
  apiKey : string;
  privateKey : string;
  baseURL : string;
  testnet : bool }.

Definition NewLighter (apiKey privateKey : string) (testnet : bool)
    : Lighter :=
  let baseURL := LighterMainnetBaseURL in
  let baseURL := if testnet then LighterTestnetBaseURL else baseURL in
  {| apiKey := apiKey; privateKey := privateKey; baseURL := baseURL;
     testnet := testnet |}.

Definition Name (l : Lighter) : string := "Lighter".

(** Assignments to the two fields [SetTestnet] writes. *)
Definition set_testnet (v : bool) (l : Lighter) : Lighter :=
  {| apiKey := apiKey l; privateKey := privateKey l; baseURL := baseURL l;
     testnet := v |}.

Definition set_baseURL (v : string) (l : Lighter) : Lighter :=
  {| apiKey := apiKey l; privateKey := privateKey l; baseURL := v;
     testnet := testnet l |}.

Definition SetTestnet (testnet : bool) (l : Lighter) : Lighter :=
  let l := set_testnet testnet l in
  if testnet then set_baseURL LighterTestnetBaseURL l
  else set_baseURL LighterMainnetBaseURL l.

Definition GetFundingRates (l : Lighter) : Result (list FundingRate) :=
  Err "funding rate endpoint not available in Lighter documentation".

(** The simulated order; [Filled] is not set and has Go's zero value. *)
Definition PlaceOrder (l : Lighter) (market : string) (side : OrderSide)
    (orderType : OrderType) (amount price : float64) : Result Order :=
  Ok {| Order_ID := "lighter-simulated-order-id";
        Order_Market := market;
        Order_Side := side;
        Order_Type := orderType;
        Order_Price := price;
        Order_Amount := amount;
        Order_Filled := f64.zero;
        Order_Status := "NEW";
        Order_Timestamp := 0 |}.

Definition ClosePosition (l : Lighter) (market : string) (side : OrderSide)
    (amount : float64) : Result Order :=
  let closeSide := Sell in
  let closeSide := match side with Sell => Buy | Buy => closeSide end in
  PlaceOrder l market closeSide Market amount f64.zero.

End lighter.

(** [Extended], the second venue.  It works through the Extended SDK and
    through HTTP requests of its own.  Neither is part of the source: the
    SDK's types are parameters, and the SDK's calls, the HTTP round trip,
    the two parsers and the clock are the operations of a class [SDK], of
    which nothing is assumed.  Every call that leaves the process is
    recorded, in order, beside the state of the outside world.  Contexts,
    timeouts and what is printed on the standard output are left out. *)
Module extended.
Import exchange.

Definition ExtendedMainnetBaseURL : string :=
  "https://api.starknet.extended.exchange".
Definition ExtendedTestnetBaseURL : string :=
  "https://api.starknet.sepolia.extended.exchange".

Inductive SDKOrderSide := OrderSideBuy | OrderSideSell.
Inductive TimeInForce := TimeInForceIOC | TimeInForceGTT.

Record StarknetDomain := mkStarknetDomain {
  Domain_Name : string;
  Domain_Version : string;
  Domain_ChainID : string;
  Domain_Revision : string }.

Record EndpointConfig := mkEndpointConfig { APIBaseURL : string }.

Section WithSDK.
Context {Account MarketModel SignedOrder : Type}.

(** An [*sdk.APIClient], known by what [sdk.NewAPIClient] was given. *)
Record APIClient := mkAPIClient {
  client_cfg : EndpointConfig;
  client_apiKey : string;
  client_account : Account;
  client_timeout : Z }.

(** The fields of [sdk.CreateOrderObjectParams] that [PlaceOrder] sets and
    that vary: the signer is a method of the account, and the level of
    self-trade protection is a constant.  The two decimals are known by
    the [float64] that [decimal.NewFromFloat] is given. *)
Record CreateOrderObjectParams := mkParams {
  Params_Market : MarketModel;
  Params_Account : Account;
  Params_SyntheticAmount : float64;
  Params_Side : SDKOrderSide;
  Params_StarknetDomain : StarknetDomain;
  Params_Nonce : Z;
  Params_TimeInForce : TimeInForce;
  Params_Price : float64 }.

(** What [Extended] calls outside the source.  [roundTrip] is the request
    of [sendRequest] from [http.NewRequest] to [ioutil.ReadAll]: it answers
    the status code, the status line and the body, or the error of the
    step that failed.  [SubmitOrder] answers [response.Data.OrderID]. *)
Class SDK (W : Type) := {
  NewStarkPerpetualAccount : Z -> string -> string -> string ->
                             Result Account;
  Account_APIKey : Account -> string;
  Market_Name : MarketModel -> string;
  Market_FundingRate : MarketModel -> float64;
  GetMarkets : APIClient -> list string -> W ->
               Result (list MarketModel) * W;
  CreateOrderObject : CreateOrderObjectParams -> W -> Result SignedOrder * W;
  SubmitOrder : APIClient -> SignedOrder -> W -> Result Z * W;
  roundTrip : string -> string -> string -> string -> W ->
              Result (Z * string * string) * W;
  unmarshalMarketStats : string -> Result (string * string);
  ParseFloat : string -> Result float64;
  Now : W -> Z * W }.

Context {W : Type} `{!SDK W}.

(** The calls that leave the process. *)
Inductive Call :=
| CallGetMarkets (c : APIClient) (names : list string)
| CallCreateOrderObject (params : CreateOrderObjectParams)
| CallSubmitOrder (c : APIClient) (order : SignedOrder)
| CallRoundTrip (method url apiKey data : string)
| CallNow.

(** The outside world and the calls made so far. *)
Record Net := mkNet {
  outside : W;
  calls : list Call }.

Definition made (c : Call) (w : W) (n : Net) : Net :=
  {| outside := w; calls := calls n ++ [c] |}.

Record Extended := mkExtended {
  client : APIClient;
  account : Account;
  apiKey : string;
  baseURL : string;
  testnet : bool }.

(** [NewExtended]; [None] where [log.Fatalf] ends the process. *)
Definition NewExtended (apiKey privateKey publicKey : string) (vaultID : Z)
    (testnet : bool) : option Extended :=
  let baseURL := ExtendedMainnetBaseURL in
  let baseURL := if testnet then ExtendedTestnetBaseURL else baseURL in
  let cfg := {| APIBaseURL := baseURL +:+ "/api/v1" |} in
  match NewStarkPerpetualAccount (vaultID mod 2 ^ 64)%Z privateKey publicKey
          apiKey with
  | Err _ => None
  | Ok account =>
    let client :=
      {| client_cfg := cfg; client_apiKey := Account_APIKey account;
         client_account := account; client_timeout := 30 |} in
    Some {| client := client; account := account; apiKey := apiKey;
            baseURL := baseURL; testnet := testnet |}
  end.

Definition Name (e : Extended) : string := "Extended".

Definition set_testnet (v : bool) (e : Extended) : Extended :=
  {| client := client e; account := account e; apiKey := apiKey e;
     baseURL := baseURL e; testnet := v |}.

Definition set_baseURL (v : string) (e : Extended) : Extended :=
  {| client := client e; account := account e; apiKey := apiKey e;
     baseURL := v; testnet := testnet e |}.

Definition SetTestnet (testnet : bool) (e : Extended) : Extended :=
  let e := set_testnet testnet e in
  if testnet then set_baseURL ExtendedTestnetBaseURL e
  else set_baseURL ExtendedMainnetBaseURL e.

Definition GetFundingRates (e : Extended) (n : Net)
    : Result (list FundingRate) * Net :=
  let (r, w) := GetMarkets (client e) [] (outside n) in
  let n := made (CallGetMarkets (client e) []) w n in
  match r with
  | Err err => (Err ("failed to get markets from Extended SDK: " +:+ err), n)
  | Ok markets =>
    let fundingRates :=
      foldl (fun fundingRates market =>
               fundingRates ++
                 [{| FundingRate_Market := Market_Name market;
                     FundingRate_Rate := Market_FundingRate market;
                     FundingRate_NextTime := 0 |}])
            [] markets in
    (Ok fundingRates, n)
  end.

Definition sendRequest (e : Extended) (method endpoint data : string)
    (n : Net) : Result string * Net :=
  let url := baseURL e +:+ endpoint in
  let (r, w) := roundTrip method url (apiKey e) data (outside n) in
  let n := made (CallRoundTrip method url (apiKey e) data) w n in
  match r with
  | Err err => (Err err, n)
  | Ok (statusCode, status, body) =>
    if (400 <=? statusCode)%Z then
      (Err ("API error: " +:+ status +:+ " - " +:+ body), n)
    else (Ok body, n)
  end.

Definition GetMarkPrice (e : Extended) (market : string) (n : Net)
    : Result float64 * Net :=
  let endpoint := "/api/v1/info/markets/" +:+ market +:+ "/stats" in
  let (r, n) := sendRequest e "GET" endpoint "" n in
  match r with
  | Err err =>
    (Err ("failed to get market stats from Extended: " +:+ err), n)
  | Ok body =>
    match unmarshalMarketStats body with
    | Err err =>
      (Err ("failed to unmarshal market stats response from Extended: "
              +:+ err), n)
    | Ok (status, markPrice) =>
      if negb (String.eqb status "OK") then
        (Err ("Extended API returned non-OK status for market stats: "
                +:+ body), n)
      else
        match ParseFloat markPrice with
        | Err err =>
          (Err ("failed to parse mark price float from Extended: " +:+ err),
           n)
        | Ok markPrice => (Ok markPrice, n)
        end
    end
  end.

Definition getStarknetDomain (e : Extended) : StarknetDomain :=
  if testnet e then
    {| Domain_Name := "Perpetuals"; Domain_Version := "v0";
       Domain_ChainID := "SN_SEPOLIA"; Domain_Revision := "1" |}
  else
    {| Domain_Name := "Perpetuals"; Domain_Version := "v0";
       Domain_ChainID := "SN_MAIN"; Domain_Revision := "1" |}.

(** Step 2 of [PlaceOrder] from the choice of the time in force on: the
    parameters, complete, or the error of the mark price. *)
Definition priceParams (e : Extended) (market : string) (side : OrderSide)
    (orderType : OrderType) (price : float64)
    (params : TimeInForce -> float64 -> CreateOrderObjectParams) (n : Net)
    : Result CreateOrderObjectParams * Net :=
  match orderType with
  | Market =>
    let (r, n) := GetMarkPrice e market n in
    match r with
    | Err err =>
      (Err ("could not get mark price for market order: " +:+ err), n)
    | Ok markPrice =>
      let orderPrice :=
        match side with
        | Buy => (markPrice * f64.ratio 105 100)%f64
        | Sell => (markPrice * f64.ratio 95 100)%f64
        end in
      (Ok (params TimeInForceIOC orderPrice), n)
    end
  | Limit => (Ok (params TimeInForceGTT price), n)
  end.

Definition PlaceOrder (e : Extended) (market : string) (side : OrderSide)
    (orderType : OrderType) (amount price : float64) (n : Net)
    : Result Order * Net :=
  let (r, w) := GetMarkets (client e) [market] (outside n) in
  let n := made (CallGetMarkets (client e) [market]) w n in
  match r with
  | Err err =>
    (Err ("failed to get market details for " +:+ market +:+ ": " +:+ err),
     n)
  | Ok [] => (Err ("market " +:+ market +:+ " not found on Extended"), n)
  | Ok (marketInfo :: _) =>
    let orderSide := OrderSideBuy in
    let orderSide :=
      match side with Sell => OrderSideSell | Buy => orderSide end in
    let (nonce, w) := Now (outside n) in
    let n := made CallNow w n in
    let params timeInForce orderPrice :=
      {| Params_Market := marketInfo;
         Params_Account := account e;
         Params_SyntheticAmount := amount;
         Params_Side := orderSide;
         Params_StarknetDomain := getStarknetDomain e;
         Params_Nonce := nonce;
         Params_TimeInForce := timeInForce;
         Params_Price := orderPrice |} in
    let (r, n) := priceParams e market side orderType price params n in
    match r with
    | Err err => (Err err, n)
    | Ok params =>
      let (r, w) := CreateOrderObject params (outside n) in
      let n := made (CallCreateOrderObject params) w n in
      match r with
      | Err err => (Err ("failed to create SDK order object: " +:+ err), n)
      | Ok order =>
        let (r, w) := SubmitOrder (client e) order (outside n) in
        let n := made (CallSubmitOrder (client e) order) w n in
        match r with
        | Err err => (Err ("failed to submit order via SDK: " +:+ err), n)
        | Ok orderID =>
          let (now, w) := Now (outside n) in
          let n := made CallNow w n in
          (Ok {| Order_ID := pretty orderID;
                 Order_Market := market;
                 Order_Side := side;
                 Order_Type := orderType;
                 Order_Price := price;
                 Order_Amount := amount;
                 Order_Filled := f64.zero;
                 Order_Status := "NEW";
                 Order_Timestamp := now |}, n)
        end
      end
    end
  end.

Definition ClosePosition (e : Extended) (market : string) (side : OrderSide)
    (amount : float64) (n : Net) : Result Order * Net :=
  let closeSide := Sell in
  let closeSide := match side with Sell => Buy | Buy => closeSide end in
  PlaceOrder e market closeSide Market amount f64.zero n.

(** Observations on the calls. *)

Definition is_get_markets (c : Call) : bool :=
  match c with CallGetMarkets _ _ => true | _ => false end.

Definition is_create (c : Call) : bool :=
  match c with CallCreateOrderObject _ => true | _ => false end.

Definition is_submit (c : Call) : bool :=
  match c with CallSubmitOrder _ _ => true | _ => false end.

Definition is_round_trip (c : Call) : bool :=
  match c with CallRoundTrip _ _ _ _ => true | _ => false end.

Definition count_calls (f : Call -> bool) (l : list Call) : nat :=
  length (List.filter f l).

(** The base URL and the chain of a network. *)
Definition networkURL (testnet : bool) : string :=
  if testnet then ExtendedTestnetBaseURL else ExtendedMainnetBaseURL.

Definition chainID (testnet : bool) : string :=
  if testnet then "SN_SEPOLIA" else "SN_MAIN".

(** Where a call goes: a call of the SDK client to the API of the network
    [sdkNet], a request of [sendRequest] to the network [httpNet], and an
    order signed for the chain of [signNet]. *)
Definition goes_to (sdkNet httpNet signNet : bool) (c : Call) : Prop :=
  match c with
  | CallGetMarkets cl _ | CallSubmitOrder cl _ =>
    APIBaseURL (client_cfg cl) = networkURL sdkNet +:+ "/api/v1"
  | CallRoundTrip _ url _ _ =>
    exists endpoint, url = networkURL httpNet +:+ endpoint
  | CallCreateOrderObject params =>
    Domain_ChainID (Params_StarknetDomain params) = chainID signNet
  | CallNow => True
  end.

#[global] Instance venue : Exchange Extended Net := {|
  exchange.Name := Name;
  exchange.GetFundingRates := GetFundingRates;
  exchange.PlaceOrder := PlaceOrder;
  exchange.ClosePosition := ClosePosition |}.

End WithSDK.

Arguments APIClient : clear implicits.
Arguments CreateOrderObjectParams : clear implicits.
Arguments SDK : clear implicits.
Arguments Call : clear implicits.
Arguments Net : clear implicits.
Arguments Extended : clear implicits.

End extended.

(** [cmd/trade]: the strategy as [TradeCmd] builds it, with a [*Lighter]
    as the first venue.  The second venue is any implementation of the
    interface; an interface value is either the one or the other, and a
    method call on it is dispatched accordingly. *)
Module trade.

Section Wiring.
Context {E2 W : Type} `{!exchange.Exchange E2 W}.

Inductive Venue :=
| OfLighter (l : lighter.Lighter)
| Other (e : E2).

#[global] Instance dispatch : exchange.Exchange Venue W := {|
  exchange.Name v :=
    match v with
    | OfLighter l => lighter.Name l
    | Other e => exchange.Name e
    end;
  exchange.GetFundingRates v w :=
    match v with
    | OfLighter l => (lighter.GetFundingRates l, w)
    | Other e => exchange.GetFundingRates e w
    end;
  exchange.PlaceOrder v market side orderType amount price w :=
    match v with
    | OfLighter l =>
      (lighter.PlaceOrder l market side orderType amount price, w)
    | Other e => exchange.PlaceOrder e market side orderType amount price w
    end;
  exchange.ClosePosition v market side amount w :=
    match v with
    | OfLighter l => (lighter.ClosePosition l market side amount, w)
    | Other e => exchange.ClosePosition e market side amount w
    end |}.

(** [arbStrategy] of [TradeCmd]. *)
Definition arbStrategy (cfg : config.Config) (extendedEx : E2)
    (notifier : bool) : strategy.Strategy Venue :=
  let lighterEx :=
    lighter.NewLighter (config.LighterAPIKey cfg)
      (config.LighterPrivateKey cfg) (config.Testnet cfg) in
  strategy.NewFundingRateArb cfg (OfLighter lighterEx) (Other extendedEx)
    notifier.

(** The process as [arbStrategy.Run(stop)] starts. *)
Definition boot (cfg : config.Config) (extendedEx : E2) (notifier : bool)
    (w : W) : strategy.Machine Venue W :=
  {| strategy.self := arbStrategy cfg extendedEx notifier;
     strategy.world := w;
     strategy.trace := [] |}.

End Wiring.

Arguments Venue : clear implicits.

End trade.

(** ** Further scenarios *)

Module scenarios.

(** Scenario A without a notifier, and the state after its first cycle. *)
Definition silentA : strategy.Machine sim.Venue sim.World :=
  {| strategy.self :=
       strategy.NewFundingRateArb sim.cfgBTC sim.Lighter sim.Extended false;
     strategy.world := sim.quoting (f64.ratio 5 10000) (f64.ratio 1 10000);
     strategy.trace := [] |}.

Definition silentB : strategy.Machine sim.Venue sim.World :=
  strategy.exec strategy.checkFundingRates silentA.

Definition ratesTwice : list exchange.FundingRate :=
  [sim.quote "BTC-USD" (f64.ratio 1 10000); sim.quote "ETH-USD" (f64.ratio 2 10000);
   sim.quote "BTC-USD" (f64.ratio 3 10000)].

(** A venue that quotes and refuses every order. *)
Inductive Closed := closed.

#[global] Instance closedVenue : exchange.Exchange Closed unit := {|
  exchange.Name _ := "Closed";
  exchange.GetFundingRates _ w :=
    (exchange.Ok [sim.quote "BTC-USD" (f64.ratio 5 10000)], w);
  exchange.PlaceOrder _ _ _ _ _ _ w := (exchange.Err "market closed", w);
  exchange.ClosePosition _ _ _ _ w := (exchange.Err "market closed", w) |}.

(** Where nothing is outside the process a loop over a map visits the keys
    in the order of the map's list of entries. *)
#[global] Instance rangeUnit : runtime.Range unit :=
  {| runtime.rangeMap A ps w := (map_to_list ps, w);
     runtime.rangeMap_visits A ps w := Permutation_refl _ |}.

(** Two venues that bear the same name.  The first quotes 0.0005, the
    second 0.0001, and both fill every order. *)
Inductive Twin := twinA | twinB.

#[global] Instance twinVenue : exchange.Exchange Twin unit := {|
  exchange.Name _ := "Twin";
  exchange.GetFundingRates v w :=
    (exchange.Ok [sim.quote "BTC-USD"
                    match v with
                    | twinA => f64.ratio 5 10000
                    | twinB => f64.ratio 1 10000
                    end], w);
  exchange.PlaceOrder _ market side orderType amount price w :=
    (exchange.Ok (exchange.mkOrder "order" market side orderType price
                    amount f64.zero "OPEN" 0), w);
  exchange.ClosePosition _ market side amount w :=
    (exchange.Ok (exchange.mkOrder "close" market side exchange.Market
                    f64.zero amount f64.zero "OPEN" 0), w) |}.



(** The strategy of [cmd/trade] with the closed venue second and with the
    second venue of the scripted world. *)
Definition wiredClosed : strategy.Machine (trade.Venue Closed) unit :=
  trade.boot sim.cfgBTC closed true tt.

Definition wiredSim : strategy.Machine (trade.Venue sim.Venue) sim.World :=
  trade.boot sim.cfgBTC sim.Extended true sim.calm.

Definition ratesLow : gmap string float64 :=
  strategy.ratesMap [sim.quote "BTC-USD" (f64.ratio 1 10000)].
Definition ratesHigh : gmap string float64 :=
  strategy.ratesMap [sim.quote "BTC-USD" (f64.ratio 5 10000)].

End scenarios.

(** A scripted SDK: an account is its API key, a market a name and a
    funding rate, a signed order the parameters it was made from; the
    world lists the markets, holds the mark price as the venue prints it,
    and counts the seconds. *)
Module simsdk.
Import exchange.

Definition Account : Type := string.
Definition MarketModel : Type := string * float64.
Definition SignedOrder : Type :=
  extended.CreateOrderObjectParams Account MarketModel.

Record World := mkWorld {
  listed : list MarketModel;
  markPrice : string;
  clock : Z }.

Definition named (names : list string) (market : MarketModel) : bool :=
  match names with
  | [] => true
  | _ => existsb (String.eqb (fst market)) names
  end.

#[global] Instance sdk
    : extended.SDK Account MarketModel SignedOrder World := {|
  extended.NewStarkPerpetualAccount _ privateKey _ apiKey :=
    if String.eqb privateKey "" then Err "empty private key" else Ok apiKey;
  extended.Account_APIKey a := a;
  extended.Market_Name := fst;
  extended.Market_FundingRate := snd;
  extended.GetMarkets _ names w := (Ok (List.filter (named names) (listed w)), w);
  extended.CreateOrderObject params w := (Ok params, w);
  extended.SubmitOrder _ _ w := (Ok 41%Z, w);
  extended.roundTrip _ _ _ _ w := (Ok (200%Z, "200 OK", markPrice w), w);
  extended.unmarshalMarketStats body := Ok ("OK", body);
  extended.ParseFloat s :=
    if String.eqb s "60000" then Ok (f64.of_Z 60000)
    else Err "invalid syntax";
  extended.Now w :=
    (clock w,
     {| listed := listed w; markPrice := markPrice w;
        clock := (clock w + 1)%Z |}) |}.

Definition venue : extended.Extended Account :=
  {| extended.client :=
       {| extended.client_cfg :=
            {| extended.APIBaseURL :=
                 "https://api.starknet.sepolia.extended.exchange/api/v1" |};
          extended.client_apiKey := "key";
          extended.client_account := "key";
          extended.client_timeout := 30 |};
     extended.account := "key";
     extended.apiKey := "key";
     extended.baseURL := "https://api.starknet.sepolia.extended.exchange";
     extended.testnet := true |}.

Definition start : extended.Net Account MarketModel SignedOrder World :=
  {| extended.outside :=
       {| listed := [("BTC-USD", f64.ratio 5 10000); ("ETH-USD", f64.ratio 2 10000)];
          markPrice := "60000";
          clock := 1700000000 |};
     extended.calls := [] |}.

End simsdk.

(** * Properties *)

(** ** [float64] comparisons *)

Local Open Scope f64_scope.

Lemma f64_compare_swap (a b : float64) :
  SFcompare b a = option_map CompOpp (SFcompare a b).
Proof.
  destruct a as [s1|s1| |s1 m1 e1], b as [s2|s2| |s2 m2 e2];
    try destruct s1; try destruct s2; try reflexivity; cbn;
    rewrite (Z.compare_antisym e1 e2);
    destruct (e1 ?= e2)%Z; cbn; try reflexivity;
    rewrite (Pos.compare_cont_antisym m1 m2 Eq); cbn;
    by rewrite ?CompOpp_involutive.
Qed.

Lemma f64_gtb_not_nan a b :
  (a >? b) = true -> f64.is_nan a = false /\ f64.is_nan b = false.
Proof.
  unfold f64.gtb, SFltb.
  by destruct a as [[]|[]| |[] ? ?], b as [[]|[]| |[] ? ?].
Qed.

Lemma f64_is_nan_abs a : f64.is_nan (f64.abs a) = f64.is_nan a.
Proof. by destruct a. Qed.

(** [math.Abs(diff)] against the value the source passes on. *)
Lemma f64_abs_of_pos d : (d >? f64.zero) = true -> f64.abs d = d.
Proof. by destruct d as [[]|[]| |[] ? ?]. Qed.

Lemma f64_abs_of_nonpos d :
  f64.is_nan d = false -> (d >? f64.zero) = false ->
  (- d ==? f64.abs d) = true /\ (d <> f64.zero -> - d = f64.abs d).
Proof.
  destruct d as [[]|[]| |[] m e]; try done; intros _ _; split; try done.
  unfold f64.neg, f64.abs, f64.eqb, SFeqb. cbn. rewrite Z.compare_refl.
  change (Pos.compare_cont Eq m m) with (m ?= m)%positive.
  by rewrite Pos.compare_refl.
Qed.

Lemma f64_eqb_refl a : f64.is_nan a = false -> (a ==? a) = true.
Proof.
  destruct a as [s|s| |s m e]; try destruct s; try done; intros _;
    unfold f64.eqb, SFeqb; cbn; rewrite Z.compare_refl; cbn;
    change (Pos.compare_cont Eq m m) with (m ?= m)%positive;
    by rewrite Pos.compare_refl.
Qed.

Lemma f64_gtb_not_ltb a b : (a >? b) = true -> (a <? b) = false.
Proof.
  unfold f64.gtb, f64.ltb, SFltb. rewrite (f64_compare_swap a b).
  by destruct (SFcompare a b) as [[]|].
Qed.

Lemma f64_eqb_not_gtb a b : (a ==? b) = true -> (a >? b) = false.
Proof.
  unfold f64.eqb, f64.gtb, SFeqb, SFltb. rewrite (f64_compare_swap a b).
  by destruct (SFcompare a b) as [[]|].
Qed.

Lemma f64_not_gtb_leb a b :
  f64.is_nan a = false -> f64.is_nan b = false ->
  (a >? b) = false -> (a <=? b) = true.
Proof.
  unfold f64.gtb, f64.leb, SFltb, SFleb. rewrite (f64_compare_swap a b).
  intros Ha Hb.
  assert (is_Some (SFcompare a b)) as [c Hc].
  { by destruct a as [[]|[]| |[] ? ?], b as [[]|[]| |[] ? ?]. }
  rewrite Hc. by destruct c.
Qed.

Section Properties.
Context {E W : Type} `{!exchange.Exchange E W} `{!runtime.Range W}.
Import strategy.

Implicit Types (m : Machine E W) (s : Strategy E) (p : PositionInfo E).

Lemma since_app m m' new : trace m' = trace m ++ new -> since m m' = new.
Proof. intros Heq. unfold since. rewrite Heq. apply drop_app_length. Qed.

Ltac unfold_monad :=
  unfold exec, released, SendPositionNotification, callPlaceOrder,
    callClosePosition, callGetFundingRates, Lock, Unlock, emit, modify,
    gets, bind, ret, stamp.

(** The value and the effect of [getTotalPositionValue]. *)
Lemma getTotalPositionValue_run m :
  (getTotalPositionValue m).1 = totalIn m /\
  self (getTotalPositionValue m).2 = self m /\
  trace (getTotalPositionValue m).2 = trace m.
Proof.
  unfold getTotalPositionValue, totalIn.
  by destruct (runtime.rangeMap (positions (self m)) (world m)).
Qed.

(** The opening sequence ends in one of its six outcomes. *)
Lemma executeArbitrage_spec market longEx shortEx rateDiff m :
  let m' := exec (executeArbitrage market longEx shortEx rateDiff) m in
  exists ps' rest,
    open_outcome market longEx shortEx (self m) (totalIn m) ps' rest /\
    trace m' = trace m ++
      mkEntry (EvExecuteArbitrage market longEx shortEx rateDiff)
              (mu (self m)) (positions (self m)) :: rest /\
    positions (self m') = ps' /\
    mu (self m') = false /\
    same_wiring (self m) (self m').
Proof.
  unfold executeArbitrage, executeArbitrage_locked, getTotalPositionValue,
    totalIn.
  unfold_monad. cbn.
  destruct (positions (self m) !! market) as [p|] eqn:Hp; cbn.
  { exists (positions (self m)), []. repeat split; eauto. econstructor; eauto. }
  destruct (runtime.rangeMap (positions (self m)) (world m))
    as [visited w0] eqn:Hrange; cbn.
  destruct (_ >? _) eqn:Hcap; cbn.
  { exists (positions (self m)), []. repeat split; eauto.
    by apply open_over_cap. }
  destruct (placeholderPrice market) as [price|] eqn:Hprice; cbn.
  2:{ exists (positions (self m)), []. repeat split; eauto.
      by apply open_no_price. }
  destruct (exchange.PlaceOrder longEx _ _ _ _ _ _) as [[o1|e1] w1] eqn:Hl; cbn.
  2:{ exists (positions (self m)),
        (longLeg (self m) market longEx price (exchange.Err e1)).
      split; [by apply open_long_failed|].
      unfold longLeg, longOrderEntry, notified.
      destruct (notifier (self m)); cbn; rewrite <- ?app_assoc; cbn;
        by repeat split. }
  destruct (notifier (self m)) eqn:Htn; cbn;
    (destruct (exchange.PlaceOrder shortEx _ _ _ _ _ _)
       as [[o2|e2] w2] eqn:Hs; cbn; rewrite ?Htn; cbn;
     [ match goal with
       | |- context [runtime.rangeMap ?ps ?w] =>
         destruct (runtime.rangeMap ps w) as [visited' w3]
       end; cbn;
       eexists _, _; split;
         [by apply (open_recorded _ _ _ _ _ price o1 o2)|]
     | eexists _, _; split;
         [by apply (open_short_failed _ _ _ _ _ price o1 e2)|] ];
     unfold longLeg, shortLeg, longOrderEntry, shortOrderEntry, notified;
     rewrite Htn; cbn; rewrite <- ?app_assoc; cbn; by repeat split).
Qed.

(** The closing sequence ends in one of its three outcomes. *)
Lemma closeArbitrage_spec position m :
  let m' := exec (closeArbitrage position) m in
  exists ps' rest,
    close_outcome position (self m) ps' rest /\
    trace m' = trace m ++
      mkEntry (EvCloseArbitrage position) (mu (self m)) (positions (self m))
        :: rest /\
    positions (self m') = ps' /\
    mu (self m') = false /\
    same_wiring (self m) (self m').
Proof.
  unfold closeArbitrage. unfold_monad. cbn.
  destruct (positions (self m) !! Market position) as [p|] eqn:Hp; cbn.
  2:{ exists (positions (self m)), []. repeat split; eauto.
      by apply close_absent. }
  destruct (placeholderPrice (Market position)) as [price|] eqn:Hprice; cbn.
  2:{ eexists _, []. repeat split; eauto. by eapply close_no_price. }
  destruct (exchange.ClosePosition (LongExchange position) _ _ _ _)
    as [r1 w1] eqn:Hl; cbn.
  destruct (notifier (self m)) eqn:Htn; cbn;
    (destruct (exchange.ClosePosition (ShortExchange position) _ _ _ _)
       as [r2 w2] eqn:Hs; cbn; rewrite ?Htn; cbn;
     eexists _, _; split;
       [by eapply (close_attempted _ _ p price r1 r2)|];
     unfold closeLeg, notified; rewrite Htn; cbn;
     rewrite <- ?app_assoc; cbn; by repeat split).
Qed.

(** *** The loop body of [checkFundingRates], case by case *)

Lemma evaluateMarket_skip rates1Map rates2Map market m :
  rates1Map !! market = None \/ rates2Map !! market = None ->
  evaluateMarket rates1Map rates2Map market m = (tt, m).
Proof.
  unfold evaluateMarket. intros [Hm|Hm]; rewrite Hm; [done|].
  by destruct (rates1Map !! market).
Qed.

Lemma evaluateMarket_idle rates1Map rates2Map market rate1 rate2 m :
  rates1Map !! market = Some rate1 ->
  rates2Map !! market = Some rate2 ->
  positions (self m) !! market = None ->
  (f64.abs (rate1 - rate2) >? config.MinFundingRateDiff (config (self m)))
    = false ->
  exec (evaluateMarket rates1Map rates2Map market) m = released m.
Proof.
  intros H1 H2 Hp Hd. unfold evaluateMarket. rewrite H1, H2. unfold_monad.
  cbn.
  rewrite Hp. by rewrite Hd.
Qed.

Lemma evaluateMarket_open rates1Map rates2Map market rate1 rate2 m :
  rates1Map !! market = Some rate1 ->
  rates2Map !! market = Some rate2 ->
  positions (self m) !! market = None ->
  (f64.abs (rate1 - rate2) >? config.MinFundingRateDiff (config (self m)))
    = true ->
  exec (evaluateMarket rates1Map rates2Map market) m =
    if (rate1 - rate2 >? f64.zero)
    then exec (executeArbitrage market (exchange2 (self m))
                 (exchange1 (self m)) (rate1 - rate2)) (released m)
    else exec (executeArbitrage market (exchange1 (self m))
                 (exchange2 (self m)) (- (rate1 - rate2))) (released m).
Proof.
  intros H1 H2 Hp Hd. unfold evaluateMarket. rewrite H1, H2. unfold_monad.
  cbn.
  rewrite Hp. rewrite Hd.
  by destruct (rate1 - rate2 >? f64.zero).
Qed.

Lemma evaluateMarket_held rates1Map rates2Map market rate1 rate2 position m :
  rates1Map !! market = Some rate1 ->
  rates2Map !! market = Some rate2 ->
  positions (self m) !! market = Some position ->
  exec (evaluateMarket rates1Map rates2Map market) m =
    if (String.eqb (exchange.Name (ShortExchange position))
          (exchange.Name (exchange1 (self m)))
        && (rate1 - rate2 <=? f64.zero))
       || (String.eqb (exchange.Name (ShortExchange position))
             (exchange.Name (exchange2 (self m)))
           && (rate1 - rate2 >=? f64.zero))
    then exec (closeArbitrage position) (released m)
    else released m.
Proof.
  intros H1 H2 Hp. unfold evaluateMarket. rewrite H1, H2. unfold_monad.
  cbn.
  rewrite Hp.
  destruct (String.eqb _ (exchange.Name (exchange1 _)) && _);
    destruct (String.eqb _ (exchange.Name (exchange2 _)) && _); done.
Qed.

(** What one evaluation appends to the trace. *)
Lemma since_released {A} (c : @strategy.M E W A) m :
  since m (exec c (released m)) = since (released m) (exec c (released m)).
Proof. done. Qed.

Lemma executeArbitrage_since market longEx shortEx rateDiff m :
  exists ps' rest,
    open_outcome market longEx shortEx (self m) (totalIn m) ps' rest /\
    since m (exec (executeArbitrage market longEx shortEx rateDiff) m) =
      mkEntry (EvExecuteArbitrage market longEx shortEx rateDiff)
              (mu (self m)) (positions (self m)) :: rest /\
    positions (self (exec (executeArbitrage market longEx shortEx rateDiff) m))
      = ps'.
Proof.
  destruct (executeArbitrage_spec market longEx shortEx rateDiff m)
    as (ps' & rest & Ho & Ht & Hps & _).
  exists ps', rest. split_and!; [done| |done]. by apply since_app.
Qed.

Lemma closeArbitrage_since position m :
  exists ps' rest,
    close_outcome position (self m) ps' rest /\
    since m (exec (closeArbitrage position) m) =
      mkEntry (EvCloseArbitrage position) (mu (self m)) (positions (self m))
        :: rest /\
    positions (self (exec (closeArbitrage position) m)) = ps'.
Proof.
  destruct (closeArbitrage_spec position m)
    as (ps' & rest & Ho & Ht & Hps & _).
  exists ps', rest. split_and!; [done| |done]. by apply since_app.
Qed.

(** *** What the outcomes contain *)

Lemma absent_cons f (en : Entry E) l :
  absent f (en :: l) <-> f (event en) = false /\ absent f l.
Proof. exact (Forall_cons (fun en => f (event en) = false) en l). Qed.

Lemma absent_occurs f (l : list (Entry E)) :
  absent f l <-> occurs f l = false.
Proof.
  unfold absent, occurs. induction l as [|en l IH]; cbn.
  - split; [done|constructor].
  - rewrite Forall_cons, IH, orb_false_iff. done.
Qed.

(** *** The invariant of a run *)

Lemma ledger_wf_one_per_market (ps : gmap string (PositionInfo E)) :
  ledger_wf ps -> one_per_market ps.
Proof.
  intros Hwf k1 k2 p1 p2 H1 H2 Heq.
  assert (k1 = k2) as <-.
  { rewrite <- (proj1 (Hwf _ _ H1)), <- (proj1 (Hwf _ _ H2)). done. }
  split; [done|congruence].
Qed.

Lemma ledger_wf_empty : ledger_wf (∅ : gmap string (PositionInfo E)).
Proof. intros k p Hk. by rewrite lookup_empty in Hk. Qed.

Lemma ledger_wf_insert market longEx shortEx size price
    (ps : gmap string (PositionInfo E)) :
  placeholderPrice market = Some price ->
  ledger_wf ps ->
  ledger_wf (<[market := mkPositionInfo market longEx shortEx size]> ps).
Proof.
  intros Hprice Hwf k p. rewrite lookup_insert. case_decide as Hk.
  - intros [= <-]. subst. split; [done|by exists price].
  - apply Hwf.
Qed.

Lemma ledger_wf_delete market (ps : gmap string (PositionInfo E)) :
  ledger_wf ps -> ledger_wf (delete market ps).
Proof.
  intros Hwf k p. rewrite lookup_delete. case_decide; [done|apply Hwf].
Qed.

Lemma open_outcome_ok market longEx shortEx s total ps' rest :
  open_outcome market longEx shortEx s total ps' rest ->
  ledger_wf (positions s) ->
  ledger_wf ps' /\ Forall entry_ok rest.
Proof.
  intros Ho Hwf.
  assert (forall ex side amount price r,
    positions s !! market = None ->
    entry_ok (mkEntry (EvPlaceOrder ex market side exchange.Market
      amount price r) true (positions s))) as Hentry.
  { intros. by split. }
  assert (forall a b c d e,
    entry_ok (mkEntry (EvNotify a b c d e) true (positions s))) as Hnote.
  { intros. by split. }
  destruct Ho; (split; [by eauto using ledger_wf_insert|]);
    unfold longLeg, shortLeg, longOrderEntry, shortOrderEntry, notified;
    repeat match goal with
           | |- context [if ?b then _ else _] => destruct b
           end;
    cbn [app];
    repeat first [apply Forall_nil_2 | apply Forall_cons_2]; auto.
Qed.

Lemma close_outcome_ok position s ps' rest :
  close_outcome position s ps' rest ->
  ledger_wf (positions s) ->
  ledger_wf ps' /\ Forall entry_ok rest.
Proof.
  intros Ho Hwf.
  assert (forall ex side amount r,
    entry_ok (mkEntry (EvClosePosition ex (Market position) side amount r)
                false (delete (Market position) (positions s)))) as Hentry.
  { intros. split; [by apply ledger_wf_delete|].
    split; [done|apply lookup_delete_eq]. }
  assert (forall a b c d e,
    entry_ok (mkEntry (EvNotify a b c d e) false
                (delete (Market position) (positions s)))) as Hnote.
  { intros. split; [by apply ledger_wf_delete|done]. }
  destruct Ho; (split; [by auto using ledger_wf_delete|]);
    unfold closeLeg, notified;
    repeat match goal with
           | |- context [if ?b then _ else _] => destruct b
           end;
    cbn [app];
    repeat first [apply Forall_nil_2 | apply Forall_cons_2]; auto.
Qed.

Lemma Inv_released m : Inv m -> Inv (released m).
Proof. done. Qed.

Lemma legs_wf_same s s' ps' :
  same_wiring s s' -> positions s' = ps' ->
  (forall k p, ps' !! k = Some p ->
     legs_of s (LongExchange p) (ShortExchange p)) ->
  legs_wf s'.
Proof.
  intros (_ & He1 & He2 & _) <- Hlegs k p Hk.
  unfold legs_of. rewrite He1, He2. exact (Hlegs k p Hk).
Qed.

Lemma executeArbitrage_Inv market longEx shortEx rateDiff m :
  legs_of (self m) longEx shortEx ->
  Inv m -> Inv (exec (executeArbitrage market longEx shortEx rateDiff) m).
Proof.
  intros Hpair (Hwf & Htr & Hlegs).
  destruct (executeArbitrage_spec market longEx shortEx rateDiff m)
    as (ps' & rest & Ho & Ht & Hps & _ & Hsame).
  destruct (open_outcome_ok _ _ _ _ _ _ _ Ho Hwf) as [Hwf' Hrest].
  split_and!; [by rewrite Hps| |].
  - rewrite Ht, Forall_app, Forall_cons. split_and!; done.
  - eapply legs_wf_same; [exact Hsame|exact Hps|].
    destruct Ho; try exact Hlegs.
    intros k p. rewrite lookup_insert. case_decide; [|apply Hlegs].
    by intros [= <-].
Qed.

Lemma closeArbitrage_Inv position m :
  Inv m -> Inv (exec (closeArbitrage position) m).
Proof.
  intros (Hwf & Htr & Hlegs).
  destruct (closeArbitrage_spec position m)
    as (ps' & rest & Ho & Ht & Hps & _ & Hsame).
  destruct (close_outcome_ok _ _ _ _ Ho Hwf) as [Hwf' Hrest].
  split_and!; [by rewrite Hps| |].
  - rewrite Ht, Forall_app, Forall_cons. split_and!; done.
  - eapply legs_wf_same; [exact Hsame|exact Hps|].
    destruct Ho; try exact Hlegs;
      intros k q; rewrite lookup_delete; case_decide; try done;
      apply Hlegs.
Qed.

Lemma evaluateMarket_Inv rates1Map rates2Map market m :
  Inv m -> Inv (exec (evaluateMarket rates1Map rates2Map market) m).
Proof.
  intros HI.
  destruct (rates1Map !! market) as [rate1|] eqn:H1;
    [|unfold exec; rewrite evaluateMarket_skip; auto].
  destruct (rates2Map !! market) as [rate2|] eqn:H2;
    [|unfold exec; rewrite evaluateMarket_skip; auto].
  destruct (positions (self m) !! market) as [position|] eqn:Hp.
  - rewrite (evaluateMarket_held _ _ _ _ _ _ _ H1 H2 Hp).
    destruct (_ || _); auto using closeArbitrage_Inv, Inv_released.
  - destruct (f64.abs (rate1 - rate2) >?
              config.MinFundingRateDiff (config (self m))) eqn:Hd.
    + rewrite (evaluateMarket_open _ _ _ _ _ _ H1 H2 Hp Hd).
      destruct (rate1 - rate2 >? f64.zero); apply executeArbitrage_Inv;
        auto using Inv_released; [by left|by right].
    + rewrite (evaluateMarket_idle _ _ _ _ _ _ H1 H2 Hp Hd).
      by apply Inv_released.
Qed.

Lemma exec_bind {A B} (c : @strategy.M E W A) (k : A -> @strategy.M E W B) m :
  exec (bind c k) m = exec (k (c m).1) (c m).2.
Proof. unfold exec, bind. by destruct (c m). Qed.

Lemma forEach_Inv (markets : list string) body m :
  (forall market m0, Inv m0 -> Inv (exec (body market) m0)) ->
  Inv m -> Inv (exec (forEach markets body) m).
Proof.
  intros Hbody. revert m.
  induction markets as [|market markets IH]; intros m HI; [done|].
  cbn [forEach]. rewrite exec_bind. apply IH. by apply Hbody.
Qed.

Lemma callGetFundingRates_run ex m :
  exists r w,
    exchange.GetFundingRates ex (world m) = (r, w) /\
    callGetFundingRates ex m =
      (r, {| self := self m; world := w;
             trace := trace m ++ [stamp (EvGetFundingRates ex r) m] |}).
Proof.
  unfold callGetFundingRates.
  destruct (exchange.GetFundingRates ex (world m)) as [r w]. by exists r, w.
Qed.

Lemma Inv_fetched ex r (w : W) (m : Machine E W) :
  Inv m ->
  Inv {| self := self m; world := w;
         trace := trace m ++ [stamp (EvGetFundingRates ex r) m] |}.
Proof.
  intros (Hwf & Htr & Hlegs). split_and!; [done| |done]. cbn.
  rewrite Forall_app, Forall_singleton. split; [done|]. by split.
Qed.

Lemma checkFundingRates_Inv m : Inv m -> Inv (exec checkFundingRates m).
Proof.
  intros HI. unfold checkFundingRates.
  rewrite exec_bind. cbn [gets fst snd]. rewrite exec_bind.
  destruct (callGetFundingRates_run (exchange1 (self m)) m)
    as (r1 & w1 & _ & ->). cbn [fst snd].
  pose proof (Inv_fetched (exchange1 (self m)) r1 w1 m HI) as HI1.
  destruct r1 as [rates1|e1]; [|done].
  rewrite exec_bind. cbn [gets fst snd]. rewrite exec_bind.
  match goal with |- context [callGetFundingRates ?ex ?m1] =>
    destruct (callGetFundingRates_run ex m1) as (r2 & w2 & _ & ->);
    pose proof (Inv_fetched ex r2 w2 m1 HI1) as HI2
  end.
  cbn [fst snd]. destruct r2 as [rates2|e2]; [|done].
  rewrite exec_bind. cbn [gets fst snd].
  apply forEach_Inv; [intros; by apply evaluateMarket_Inv|done].
Qed.

Lemma reachable_Inv m : reachable m -> Inv m.
Proof.
  induction 1 as [cfg ex1 ex2 tn w|m Hr IH|r1 r2 market m Hr IH
                 |m Hr IH|m w Hr IH].
  - split_and!; [apply ledger_wf_empty|constructor|].
    intros k p Hk. cbn in Hk. by rewrite lookup_empty in Hk.
  - by apply checkFundingRates_Inv.
  - by apply evaluateMarket_Inv.
  - done.
  - done.
Qed.


(** *** Entries of the outcomes, by kind *)

Lemma since_refl m : since m m = [].
Proof. unfold since. apply drop_all. Qed.

Lemma since_released_nil m : since m (released m) = [].
Proof. unfold since, released, exec, Unlock, modify. cbn. apply drop_all. Qed.

Ltac solve_absent :=
  unfold longLeg, shortLeg, longOrderEntry, shortOrderEntry, closeLeg,
    notified, absent;
  repeat match goal with
         | |- context [if ?b then _ else _] => destruct b
         end;
  cbn; repeat constructor; cbn [event].

Lemma close_outcome_absent position s ps' rest f :
  close_outcome position s ps' rest ->
  (forall a b c d e, f (EvNotify a b c d e) = false) ->
  (forall a b c d e, f (EvClosePosition a b c d e) = false) ->
  absent f rest.
Proof.
  intros Ho Hn Hc. destruct Ho; solve_absent; auto.
Qed.

(** The three guards of the opening sequence: nothing placed, nothing
    recorded. *)
Lemma open_outcome_guarded market longEx shortEx s total ps' rest :
  open_outcome market longEx shortEx s total ps' rest ->
  is_Some (positions s !! market) \/
  (total + config.PositionSizeUSD (config s) >?
     config.MaxPositionUSD (config s)) = true \/
  placeholderPrice market = None ->
  ps' = positions s /\ rest = [].
Proof.
  intros Ho Hq.
  destruct Ho; try done;
    destruct Hq as [[p' Hp']|[Hq|Hq]]; congruence.
Qed.

(** ** The claims *)

(** C1.  In every reachable state the ledger holds at most one
    [PositionInfo] per market, and so does the ledger at every recorded
    instant; every order ever placed was placed with the mutex held and
    with no position on file for its market.  When the coordinator
    ([executeArbitrage]) finds a position for the market it places no
    order and leaves the ledger as it is; when the evaluator (the loop
    body) finds one, it neither enters the opening sequence nor places an
    order. *)
Theorem C1_one_position_per_market m :
  reachable m ->
  one_per_market (positions (self m)) /\
  Forall (fun en => one_per_market (ledger en)) (trace m) /\
  Forall (fun en => forall ex mk side ty amount price r,
            event en = EvPlaceOrder ex mk side ty amount price r ->
            locked en = true /\ ledger en !! mk = None) (trace m) /\
  (forall market longEx shortEx rateDiff,
      is_Some (positions (self m) !! market) ->
      let m' := exec (executeArbitrage market longEx shortEx rateDiff) m in
      positions (self m') = positions (self m) /\
      absent is_PlaceOrder (since m m')) /\
  (forall rates1Map rates2Map market,
      is_Some (positions (self m) !! market) ->
      let m' := exec (evaluateMarket rates1Map rates2Map market) m in
      absent is_PlaceOrder (since m m') /\
      absent (is_open_trigger market) (since m m')).
Proof.
  intros Hr. destruct (reachable_Inv m Hr) as (Hwf & Htr & _).
  split_and!.
  - by apply ledger_wf_one_per_market.
  - eapply Forall_impl; [exact Htr|]. intros en [Hen _].
    by apply ledger_wf_one_per_market.
  - eapply Forall_impl; [exact Htr|]. intros en [_ Hen] ? ? ? ? ? ? ? Hev.
    by rewrite Hev in Hen.
  - intros market longEx shortEx rateDiff Hsome m'. subst m'.
    destruct (executeArbitrage_since market longEx shortEx rateDiff m)
      as (ps' & rest & Ho & -> & ->).
    destruct (open_outcome_guarded _ _ _ _ _ _ _ Ho) as [-> ->]; [by left|].
    split; [done|]. by repeat constructor.
  - intros rates1Map rates2Map market [position Hp] m'. subst m'.
    destruct (rates1Map !! market) as [rate1|] eqn:H1;
      [|unfold exec; rewrite evaluateMarket_skip, since_refl; auto;
        split; constructor].
    destruct (rates2Map !! market) as [rate2|] eqn:H2;
      [|unfold exec; rewrite evaluateMarket_skip, since_refl; auto;
        split; constructor].
    rewrite (evaluateMarket_held _ _ _ _ _ _ _ H1 H2 Hp).
    destruct (_ || _); [|rewrite since_released_nil; split; constructor].
    rewrite since_released.
    destruct (closeArbitrage_since position (released m))
      as (ps' & rest & Ho & -> & _).
    split; apply absent_cons; (split; [done|]);
      by eapply close_outcome_absent.
Qed.


(** *** What holds of every entry of an outcome *)

Lemma open_outcome_Forall market longEx shortEx s total ps' rest
    (P : Entry E -> Prop) :
  open_outcome market longEx shortEx s total ps' rest ->
  (forall a b c d e, P (mkEntry (EvNotify a b c d e) true (positions s))) ->
  (forall price r, P (longOrderEntry s market longEx price r)) ->
  (forall price r, P (shortOrderEntry s market shortEx price r)) ->
  Forall P rest.
Proof.
  intros Ho Hn Hl Hs.
  destruct Ho; unfold longLeg, shortLeg, notified;
    repeat match goal with
           | |- context [if ?b then _ else _] => destruct b
           end;
    cbn; repeat constructor; auto.
Qed.

Lemma close_outcome_Forall position s ps' rest (P : Entry E -> Prop) :
  close_outcome position s ps' rest ->
  (forall a b c d e ps, P (mkEntry (EvNotify a b c d e) false ps)) ->
  (forall a b c d e ps, P (mkEntry (EvClosePosition a b c d e) false ps)) ->
  Forall P rest.
Proof.
  intros Ho Hn Hc.
  destruct Ho; unfold closeLeg, notified;
    repeat match goal with
           | |- context [if ?b then _ else _] => destruct b
           end;
    cbn; repeat constructor; auto.
Qed.

(** C3.  Direction law.  For a market quoted by both venues, with [diff]
    the [float64] difference [rate1 - rate2]: every entry into the opening
    sequence made by the evaluation carries the magnitude [|diff|] (equal
    to [math.Abs(diff)], and that very [float64] unless [diff] is the
    positive zero), the long venue [exchange2] and the short venue
    [exchange1] when [diff > 0], the long venue [exchange1] and the short
    venue [exchange2] when [diff < 0]; and every order placed goes to the
    venue of its leg: buy orders to the long venue, sell orders to the
    short venue. *)
Theorem C3_direction_law rates1Map rates2Map market rate1 rate2 m :
  rates1Map !! market = Some rate1 ->
  rates2Map !! market = Some rate2 ->
  let diff := (rate1 - rate2)%f64 in
  let m' := exec (evaluateMarket rates1Map rates2Map market) m in
  Forall (follows_direction (self m) market diff) (since m m').
Proof.
  intros H1 H2 diff m'. subst m'.
  destruct (positions (self m) !! market) as [position|] eqn:Hp.
  { rewrite (evaluateMarket_held _ _ _ _ _ _ _ H1 H2 Hp).
    destruct (_ || _); [|rewrite since_released_nil; constructor].
    rewrite since_released.
    destruct (closeArbitrage_since position (released m))
      as (ps' & rest & Ho & -> & _).
    constructor; [done|]. by eapply close_outcome_Forall. }
  destruct (f64.abs (rate1 - rate2) >?
              config.MinFundingRateDiff (config (self m))) eqn:Hd.
  2:{ rewrite (evaluateMarket_idle _ _ _ _ _ _ H1 H2 Hp Hd).
      rewrite since_released_nil. constructor. }
  rewrite (evaluateMarket_open _ _ _ _ _ _ H1 H2 Hp Hd).
  fold diff in Hd |- *. destruct (diff >? f64.zero) eqn:Hsign.
  - rewrite since_released.
    destruct (executeArbitrage_since market (exchange2 (self m))
                (exchange1 (self m)) diff (released m))
      as (ps' & rest & Ho & -> & _).
    pose proof (f64_gtb_not_ltb _ _ Hsign) as Hneg.
    pose proof (f64_abs_of_pos _ Hsign) as Habs.
    destruct (f64_gtb_not_nan _ _ Hsign) as [Hnan _].
    constructor.
    + unfold follows_direction. cbn [event]. rewrite Habs.
      split_and!; [done|by apply f64_eqb_refl|done|done|intros; congruence].
    + eapply open_outcome_Forall; [exact Ho|..];
        intros; unfold follows_direction;
        cbn [event longOrderEntry shortOrderEntry]; try done;
        split_and!; try done; intros; congruence.
  - rewrite since_released.
    destruct (executeArbitrage_since market (exchange1 (self m))
                (exchange2 (self m)) (- diff) (released m))
      as (ps' & rest & Ho & -> & _).
    destruct (f64_gtb_not_nan _ _ Hd) as [Hnan _].
    rewrite f64_is_nan_abs in Hnan.
    destruct (f64_abs_of_nonpos _ Hnan Hsign) as [Heq Hsame].
    constructor.
    + unfold follows_direction. cbn [event].
      split_and!; [done|done|done|intros; congruence|done].
    + eapply open_outcome_Forall; [exact Ho|..];
        intros; unfold follows_direction;
        cbn [event longOrderEntry shortOrderEntry]; try done;
        split_and!; try done; intros; congruence.
Qed.


(** C4.  Open trigger law.  For a market quoted by both venues, with
    [diff] the [float64] difference [rate1 - rate2], the evaluation enters
    the opening sequence if and only if no position is on file for the
    market and [math.Abs(diff) > MinFundingRateDiff] holds; a differential
    whose magnitude equals the threshold does not enter it. *)
Theorem C4_open_trigger_law rates1Map rates2Map market rate1 rate2 m :
  rates1Map !! market = Some rate1 ->
  rates2Map !! market = Some rate2 ->
  let diff := (rate1 - rate2)%f64 in
  let m' := exec (evaluateMarket rates1Map rates2Map market) m in
  (occurs (is_open_trigger market) (since m m') = true <->
     positions (self m) !! market = None /\
     (f64.abs diff >? config.MinFundingRateDiff (config (self m))) = true) /\
  ((f64.abs diff ==? config.MinFundingRateDiff (config (self m))) = true ->
     occurs (is_open_trigger market) (since m m') = false).
Proof.
  intros H1 H2 diff m'.
  assert (occurs (is_open_trigger market) (since m m') = true <->
     positions (self m) !! market = None /\
     (f64.abs diff >? config.MinFundingRateDiff (config (self m))) = true)
    as Hiff.
  { subst m'.
    destruct (positions (self m) !! market) as [position|] eqn:Hp.
    { rewrite (evaluateMarket_held _ _ _ _ _ _ _ H1 H2 Hp).
      destruct (_ || _);
        [|rewrite since_released_nil; split; [done|by intros [? _]]].
      rewrite since_released.
      destruct (closeArbitrage_since position (released m))
        as (ps' & rest & Ho & -> & _).
      assert (occurs (is_open_trigger market)
                (mkEntry (EvCloseArbitrage position)
                   (mu (self (released m)))
                   (positions (self (released m))) :: rest) = false) as ->;
        [|split; [done|by intros [? _]]].
      apply absent_occurs, absent_cons. split; [done|].
      by eapply close_outcome_absent. }
    destruct (f64.abs (rate1 - rate2) >?
              config.MinFundingRateDiff (config (self m))) eqn:Hd.
    - rewrite (evaluateMarket_open _ _ _ _ _ _ H1 H2 Hp Hd).
      split; [done|intros _].
      destruct (rate1 - rate2 >? f64.zero); rewrite since_released;
        match goal with
        | |- context [executeArbitrage ?mk ?l ?sh ?rd] =>
          destruct (executeArbitrage_since mk l sh rd (released m))
            as (ps' & rest & _ & -> & _)
        end; cbn; by rewrite String.eqb_refl.
    - rewrite (evaluateMarket_idle _ _ _ _ _ _ H1 H2 Hp Hd).
      rewrite since_released_nil. cbn. split; [done|].
      intros [_ Hlt]. fold diff in Hd. congruence. }
  split; [exact Hiff|].
  intros Heq. apply not_true_is_false. intros Htrig.
  apply Hiff in Htrig as [_ Hlt].
  apply f64_eqb_not_gtb in Heq. congruence.
Qed.



(** *** The trace only grows *)

Lemma evaluateMarket_extends rates1Map rates2Map market m :
  exists new,
    trace (exec (evaluateMarket rates1Map rates2Map market) m) =
      trace m ++ new.
Proof.
  destruct (rates1Map !! market) as [rate1|] eqn:H1;
    [|exists []; unfold exec; rewrite evaluateMarket_skip, app_nil_r; auto].
  destruct (rates2Map !! market) as [rate2|] eqn:H2;
    [|exists []; unfold exec; rewrite evaluateMarket_skip, app_nil_r; auto].
  destruct (positions (self m) !! market) as [position|] eqn:Hp.
  - rewrite (evaluateMarket_held _ _ _ _ _ _ _ H1 H2 Hp).
    destruct (_ || _); [|exists []; by rewrite app_nil_r].
    destruct (closeArbitrage_spec position (released m))
      as (ps' & rest & _ & Ht & _). eauto.
  - destruct (f64.abs (rate1 - rate2) >?
              config.MinFundingRateDiff (config (self m))) eqn:Hd.
    + rewrite (evaluateMarket_open _ _ _ _ _ _ H1 H2 Hp Hd).
      destruct (rate1 - rate2 >? f64.zero);
        match goal with
        | |- context [executeArbitrage ?mk ?l ?sh ?rd] =>
          destruct (executeArbitrage_spec mk l sh rd (released m))
            as (ps' & rest & _ & Ht & _)
        end; eauto.
    + rewrite (evaluateMarket_idle _ _ _ _ _ _ H1 H2 Hp Hd).
      exists []. by rewrite app_nil_r.
Qed.

Lemma forEach_evaluateMarket_extends rates1Map rates2Map markets m :
  exists new,
    trace (exec (forEach markets (evaluateMarket rates1Map rates2Map)) m) =
      trace m ++ new.
Proof.
  revert m. induction markets as [|market markets IH]; intros m.
  - exists []. by rewrite app_nil_r.
  - cbn [forEach]. rewrite exec_bind.
    destruct (evaluateMarket_extends rates1Map rates2Map market m)
      as (new1 & Hnew1).
    destruct (IH (evaluateMarket rates1Map rates2Map market m).2)
      as (new2 & ->).
    unfold exec in Hnew1. rewrite Hnew1, <- app_assoc. eauto.
Qed.

(** C6.  If the query to [exchange1] fails, the cycle ends there: the
    struct (ledger included) is as before and the trace has gained the
    failed query only.  If it succeeds and the query to [exchange2]
    fails, the cycle ends there likewise, the trace having gained the two
    queries only.  Nothing is carried over: every cycle begins with a
    fresh query to [exchange1], and in [Run] a tick runs a whole cycle
    whatever the previous one did. *)
Theorem C6_fetch_failure_aborts m :
  (forall e w1,
      exchange.GetFundingRates (exchange1 (self m)) (world m) =
        (exchange.Err e, w1) ->
      exec checkFundingRates m =
        {| self := self m; world := w1;
           trace := trace m ++
             [stamp (EvGetFundingRates (exchange1 (self m))
                       (exchange.Err e)) m] |}) /\
  (forall rates1 w1 e w2,
      exchange.GetFundingRates (exchange1 (self m)) (world m) =
        (exchange.Ok rates1, w1) ->
      exchange.GetFundingRates (exchange2 (self m)) w1 =
        (exchange.Err e, w2) ->
      exec checkFundingRates m =
        {| self := self m; world := w2;
           trace := trace m ++
             [stamp (EvGetFundingRates (exchange1 (self m))
                       (exchange.Ok rates1)) m;
              stamp (EvGetFundingRates (exchange2 (self m))
                       (exchange.Err e)) m] |}) /\
  (exists r rest,
      since m (exec checkFundingRates m) =
        stamp (EvGetFundingRates (exchange1 (self m)) r) m :: rest) /\
  (forall rest,
      exec (Run (Tick :: rest)) m =
        exec (Run rest) (exec checkFundingRates m)).
Proof.
  split_and!.
  - intros e w1 Hf. unfold checkFundingRates, exec, bind, gets,
      callGetFundingRates, ret. cbn. by rewrite Hf.
  - intros rates1 w1 e w2 Hf1 Hf2. unfold checkFundingRates, exec, bind,
      gets, callGetFundingRates, ret. cbn. rewrite Hf1. cbn.
    rewrite Hf2. cbn. by rewrite <- app_assoc.
  - unfold checkFundingRates.
    rewrite exec_bind. cbn [gets fst snd]. rewrite exec_bind.
    destruct (callGetFundingRates_run (exchange1 (self m)) m)
      as (r1 & w1 & _ & ->). cbn [fst snd].
    exists r1.
    destruct r1 as [rates1|e1];
      [|exists []; apply since_app; by unfold exec, ret].
    rewrite exec_bind. cbn [gets fst snd]. rewrite exec_bind.
    match goal with |- context [callGetFundingRates ?ex ?m1] =>
      destruct (callGetFundingRates_run ex m1) as (r2 & w2 & _ & ->)
    end.
    cbn [fst snd].
    destruct r2 as [rates2|e2].
    2:{ eexists. apply since_app. unfold exec, ret. cbn.
        by rewrite <- app_assoc. }
    rewrite exec_bind. cbn [gets fst snd].
    match goal with |- context [forEach ?ms (evaluateMarket ?a ?b)] =>
      match goal with |- context [exec _ ?m2] =>
        destruct (forEach_evaluateMarket_extends a b ms m2) as (new & Hnew)
      end
    end.
    eexists. apply since_app. rewrite Hnew. cbn.
    by rewrite <- !app_assoc.
  - intros rest. cbn [Run]. by rewrite exec_bind.
Qed.


(** *** The legs *)

Lemma insert_changes market p (ps : gmap string (PositionInfo E)) :
  ps !! market = None -> ps <> <[market := p]> ps.
Proof.
  intros Hnone Heq. rewrite Heq, lookup_insert_eq in Hnone. done.
Qed.

Ltac open_cases Ho :=
  destruct Ho as [p0 Hsome|Hnone Hcap|Hnone Hcap Hprice
                 |price e Hnone Hcap Hprice
                 |price o e Hnone Hcap Hprice
                 |price o1 o2 Hnone Hcap Hprice];
  unfold longLeg, shortLeg, longOrderEntry, shortOrderEntry, notified;
  repeat match goal with
         | |- context [if ?b then _ else _] => destruct b
         end;
  cbn.

(** C7.  Leg atomicity of the opening sequence.  A [PositionInfo] is
    recorded for the market if and only if a buy order and a sell order
    were both placed with success; otherwise the ledger is as before.  If
    the buy (long) order fails, no sell (short) order is attempted and the
    ledger is as before.  If the buy order succeeds and the sell order
    fails, the ledger is as before and the calls made to the venues are
    these two orders and nothing else: the long leg is not reversed. *)
Theorem C7_leg_atomicity market longEx shortEx rateDiff m :
  let m' := exec (executeArbitrage market longEx shortEx rateDiff) m in
  let new := since m m' in
  let recorded :=
    positions (self m) !! market = None /\
    positions (self m') =
      <[market := mkPositionInfo market longEx shortEx
                    (config.PositionSizeUSD (config (self m)))]>
        (positions (self m)) in
  (recorded <->
     occurs (is_leg_success exchange.Buy) new = true /\
     occurs (is_leg_success exchange.Sell) new = true) /\
  (~ recorded -> positions (self m') = positions (self m)) /\
  (occurs (is_leg_failure exchange.Buy) new = true ->
     absent (is_leg_attempt exchange.Sell) new /\
     positions (self m') = positions (self m)) /\
  (occurs (is_leg_success exchange.Buy) new = true ->
   occurs (is_leg_failure exchange.Sell) new = true ->
     positions (self m') = positions (self m) /\
     exists price o e,
       List.filter (fun en => is_venue_call (event en)) new =
         [longOrderEntry (self m) market longEx price (exchange.Ok o);
          shortOrderEntry (self m) market shortEx price (exchange.Err e)]).
Proof.
  intros m' new recorded. subst m' new recorded.
  destruct (executeArbitrage_since market longEx shortEx rateDiff m)
    as (ps' & rest & Ho & -> & ->).
  split_and!.
  - open_cases Ho; split; try (by intros [? ?]);
      try (intros [Hn Heq]; by apply insert_changes in Heq);
      try (intros [Hn Heq]; congruence); by intros _.
  - intros Hnot. open_cases Ho; try done; exfalso; apply Hnot; by split.
  - open_cases Ho; try done; intros _; split; try done;
      unfold absent; by repeat constructor.
  - open_cases Ho; try done; intros _ _; split; try done; eauto.
Qed.


Ltac close_cases Ho :=
  destruct Ho as [Hnone|p0 Hsome Hprice|p0 price r1 r2 Hsome Hprice];
  unfold closeLeg, notified;
  repeat match goal with
         | |- context [if ?b then _ else _] => destruct b
         end;
  cbn.

Lemma placeholderPrice_None market :
  market <> "BTC-USD" -> market <> "ETH-USD" ->
  placeholderPrice market = None.
Proof.
  intros Hb He. unfold placeholderPrice.
  apply String.eqb_neq in Hb, He. by rewrite Hb, He.
Qed.

(** No run records a position for a market without placeholder price. *)
Lemma reachable_priced m k p :
  reachable m -> positions (self m) !! k = Some p ->
  is_Some (placeholderPrice k).
Proof.
  intros Hr Hk. destruct (reachable_Inv m Hr) as (Hwf & _ & Hlegs).
  by destruct (Hwf _ _ Hk).
Qed.

(** C8.  Closing sequence.  If no position is on file for the market of
    the position handed in, the sequence makes no call and leaves the
    ledger as it is.  If one is on file, it is removed, and every call the
    sequence makes is made with the mutex released and the entry already
    gone from the ledger; the long close is attempted exactly when the
    short close is, and a failure of either close leaves the other
    attempted and the entry removed.  In a reachable state, when a
    position is on file, both closes are attempted. *)
Theorem C8_closing_sequence position m :
  let m' := exec (closeArbitrage position) m in
  let new := since m m' in
  (positions (self m) !! Market position = None ->
     positions (self m') = positions (self m) /\
     absent is_network_call new) /\
  (is_Some (positions (self m) !! Market position) ->
     positions (self m') = delete (Market position) (positions (self m)) /\
     Forall (fun en =>
               is_network_call (event en) = true ->
               locked en = false /\
               ledger en = delete (Market position) (positions (self m)))
            new /\
     occurs (is_close_attempt exchange.Buy) new =
       occurs (is_close_attempt exchange.Sell) new /\
     (occurs (is_close_failure exchange.Buy) new = true ->
        occurs (is_close_attempt exchange.Sell) new = true /\
        positions (self m') !! Market position = None) /\
     (occurs (is_close_failure exchange.Sell) new = true ->
        occurs (is_close_attempt exchange.Buy) new = true /\
        positions (self m') !! Market position = None)) /\
  (reachable m ->
   is_Some (positions (self m) !! Market position) ->
     occurs (is_close_attempt exchange.Buy) new = true /\
     occurs (is_close_attempt exchange.Sell) new = true).
Proof.
  intros m' new. subst m' new.
  destruct (closeArbitrage_since position m)
    as (ps' & rest & Ho & -> & ->).
  split_and!.
  - intros Habs. close_cases Ho; try congruence.
    split; [done|]. unfold absent. by repeat constructor.
  - intros [p Hp].
    close_cases Ho; try congruence;
      (split_and!; [done|repeat constructor; cbn; done|done|..]);
      try done;
      try (intros _; split; [done|apply lookup_delete_eq]).
  - intros Hr [p Hp].
    destruct (reachable_priced _ _ _ Hr Hp) as [known Hknown].
    close_cases Ho; try congruence; done.
Qed.

(** C9.  Reference price.  If there is no placeholder price for the
    market, the opening sequence makes no call and leaves the ledger as it
    is.  If there is one, every order placed carries that price and the
    amount [PositionSizeUSD / price], the [float64] quotient; and an order
    is placed as soon as the market has no position on file and the test
    of the cap does not fire. *)
Theorem C9_reference_price market longEx shortEx rateDiff m :
  let m' := exec (executeArbitrage market longEx shortEx rateDiff) m in
  let new := since m m' in
  (placeholderPrice market = None ->
     positions (self m') = positions (self m) /\
     absent is_network_call new) /\
  (forall currentPrice,
     placeholderPrice market = Some currentPrice ->
     Forall (fun en =>
               forall ex mk side ty amount price r,
                 event en = EvPlaceOrder ex mk side ty amount price r ->
                 amount =
                   (config.PositionSizeUSD (config (self m)) / currentPrice)
                 /\ price = currentPrice) new /\
     (positions (self m) !! market = None ->
      ((getTotalPositionValue m).1 +
         config.PositionSizeUSD (config (self m)) >?
       config.MaxPositionUSD (config (self m))) = false ->
      occurs is_PlaceOrder new = true)).
Proof.
  intros m' new. subst m' new.
  destruct (executeArbitrage_since market longEx shortEx rateDiff m)
    as (ps' & rest & Ho & -> & ->).
  split.
  - intros Hnone.
    destruct (open_outcome_guarded _ _ _ _ _ _ _ Ho) as [-> ->];
      [by right; right|].
    split; [done|]. unfold absent. by repeat constructor.
  - intros currentPrice Hcur. split.
    + constructor; [by intros|].
      open_cases Ho;
        repeat first [apply Forall_nil_2 | apply Forall_cons_2]; cbn;
        intros ? ? ? ? ? ? ? Heq; try discriminate;
        injection Heq as <- <- <- <- <- <- <-;
        split; congruence.
    + intros Hfree Hroom.
      rewrite (proj1 (getTotalPositionValue_run m)) in Hroom.
      open_cases Ho; try congruence; done.
Qed.

(** C10.  Closing without a price.  If a position is on file for the
    market of the position handed in and that market is neither BTC-USD
    nor ETH-USD, the closing sequence removes the entry from the ledger
    and makes no call: neither leg is closed on its venue. *)
Theorem C10_close_without_price position m :
  is_Some (positions (self m) !! Market position) ->
  Market position <> "BTC-USD" ->
  Market position <> "ETH-USD" ->
  let m' := exec (closeArbitrage position) m in
  positions (self m') = delete (Market position) (positions (self m)) /\
  positions (self m') !! Market position = None /\
  absent is_network_call (since m m').
Proof.
  intros [p Hp] Hb He m'. subst m'.
  pose proof (placeholderPrice_None _ Hb He) as Hnoprice.
  destruct (closeArbitrage_since position m)
    as (ps' & rest & Ho & -> & ->).
  close_cases Ho; try congruence.
  split_and!; [done|apply lookup_delete_eq|].
  unfold absent. by repeat constructor.
Qed.

End Properties.

(** ** The scenarios of the specification, run on the scripted venues *)

Import strategy.

(** Scenario A, as the trace reads: the opening sequence is entered with
    Extended long and Lighter short, then a buy on Extended and a sell on
    Lighter, each followed by its notification. *)
Example scenarioA_events :
  map event (since sim.scenarioA
               (exec (evaluateMarket sim.ratesA1 sim.ratesA2 "BTC-USD")
                     sim.scenarioA)) =
  [EvExecuteArbitrage "BTC-USD" sim.Extended sim.Lighter
     ((f64.ratio 5 10000) - (f64.ratio 1 10000));
   EvPlaceOrder sim.Extended "BTC-USD" exchange.Buy exchange.Market
     (f64.of_Z 20 / f64.of_Z 60000) (f64.of_Z 60000)
     (exchange.Ok (exchange.mkOrder "order" "BTC-USD" exchange.Buy
                     exchange.Market (f64.of_Z 60000)
                     (f64.of_Z 20 / f64.of_Z 60000) f64.zero "OPEN" 0));
   EvNotify "OPEN LONG" "Extended" "BTC-USD" (f64.of_Z 20) None;
   EvPlaceOrder sim.Lighter "BTC-USD" exchange.Sell exchange.Market
     (f64.of_Z 20 / f64.of_Z 60000) (f64.of_Z 60000)
     (exchange.Ok (exchange.mkOrder "order" "BTC-USD" exchange.Sell
                     exchange.Market (f64.of_Z 60000)
                     (f64.of_Z 20 / f64.of_Z 60000) f64.zero "OPEN" 0));
   EvNotify "OPEN SHORT" "Lighter" "BTC-USD" (f64.of_Z 20) None].
Proof. vm_compute. reflexivity. Qed.

Example scenarioB_ledger :
  positions (self sim.scenarioB) !! "BTC-USD" = Some sim.heldBTC.
Proof. vm_compute. reflexivity. Qed.

(** The arithmetic is that of [float64].  With quotes 0.0001 and 0.0007
    the magnitude of the differential is the [float64] 0.0006 itself, so
    that a threshold of 0.0006 opens nothing; with quotes 0.0004 and
    0.0001 it is greater than the [float64] 0.0003, and a threshold of
    0.0003 opens. *)
Example threshold_in_float64 :
  (f64.abs (f64.ratio 1 10000 - f64.ratio 7 10000) ==? f64.ratio 6 10000)
    = true /\
  occurs (is_open_trigger "BTC-USD")
    (trace (exec checkFundingRates
              (sim.fresh (sim.cfg ["BTC-USD"] (f64.ratio 6 10000)
                            (f64.of_Z 20) (f64.of_Z 100))
                 (sim.quoting (f64.ratio 1 10000) (f64.ratio 7 10000)))))
    = false /\
  occurs (is_open_trigger "BTC-USD")
    (trace (exec checkFundingRates
              (sim.fresh (sim.cfg ["BTC-USD"] (f64.ratio 3 10000)
                            (f64.of_Z 20) (f64.of_Z 100))
                 (sim.quoting (f64.ratio 4 10000) (f64.ratio 1 10000)))))
    = true.
Proof. split_and!; vm_compute; reflexivity. Qed.

(** With 0.1 USD on file, 0.7 USD per position and a cap of
    0.7999999999999999 USD the test of the cap does not fire, the sum
    0.1 + 0.7 being that very [float64], and the position is opened. *)
Example cap_in_float64 :
  is_Some
    (positions
       (self (exec (executeArbitrage "BTC-USD" sim.Extended sim.Lighter
                      (f64.ratio 4 10000))
                (sim.machine
                   (sim.cfg ["BTC-USD"; "ETH-USD"] (f64.ratio 1 10000)
                      (f64.ratio 7 10)
                      (f64.ratio 7999999999999999 10000000000000000))
                   [("ETH-USD",
                     sim.position "ETH-USD" sim.Lighter sim.Extended
                       (f64.ratio 1 10))]
                   sim.calm))) !! "BTC-USD").
Proof. vm_compute. by eexists. Qed.

(** The sum of three sizes depends on the order in which they are added:
    0.1, 0.2, 0.3 give 0.6000000000000001 one way and 0.6 the other. *)
Example order_in_float64 :
  let p size := sim.position "M" sim.Lighter sim.Extended size in
  sumSizes [("a", p (f64.ratio 1 10)); ("b", p (f64.ratio 2 10));
            ("c", p (f64.ratio 3 10))] <>
  sumSizes [("c", p (f64.ratio 3 10)); ("b", p (f64.ratio 2 10));
            ("a", p (f64.ratio 1 10))] /\
  sumSizes [("c", p (f64.ratio 3 10)); ("b", p (f64.ratio 2 10));
            ("a", p (f64.ratio 1 10))] = f64.ratio 6 10.
Proof. split; vm_compute; [discriminate|reflexivity]. Qed.

Lemma scenarioB_reachable : reachable sim.scenarioB.
Proof. apply reachable_cycle. apply reachable_new. Qed.

(** C1 at scenario C: the position of scenario B is on file; the ledger
    has one entry per market and a further opening attempt for BTC-USD
    places no order. *)
Lemma C1_witness :
  one_per_market (positions (self sim.scenarioB)) /\
  (let m' := exec (executeArbitrage "BTC-USD" sim.Extended sim.Lighter
                     (f64.ratio 4 10000)) sim.scenarioB in
   positions (self m') = positions (self sim.scenarioB) /\
   absent is_PlaceOrder (since sim.scenarioB m')) /\
  (let m' := exec (evaluateMarket sim.ratesA1 sim.ratesA2 "BTC-USD")
                  sim.scenarioB in
   absent is_PlaceOrder (since sim.scenarioB m') /\
   absent (is_open_trigger "BTC-USD") (since sim.scenarioB m')).
Proof.
  destruct (C1_one_position_per_market sim.scenarioB scenarioB_reachable)
    as (Hone & _ & _ & Hcoord & Heval).
  split; [exact Hone|].
  split; [apply Hcoord|apply Heval];
    exists sim.heldBTC; vm_compute; reflexivity.
Defined.

(** C3 at scenario A. *)
Lemma C3_witness :
  Forall (follows_direction (self sim.scenarioA) "BTC-USD"
            ((f64.ratio 5 10000) - (f64.ratio 1 10000)))
    (since sim.scenarioA
       (exec (evaluateMarket sim.ratesA1 sim.ratesA2 "BTC-USD")
             sim.scenarioA)).
Proof.
  apply (C3_direction_law sim.ratesA1 sim.ratesA2 "BTC-USD"
           (f64.ratio 5 10000) (f64.ratio 1 10000) sim.scenarioA);
    vm_compute; reflexivity.
Defined.

(** C4 at scenario A: nothing on file and 0.0004 > 0.0001. *)
Lemma C4_witness :
  occurs (is_open_trigger "BTC-USD")
    (since sim.scenarioA
       (exec (evaluateMarket sim.ratesA1 sim.ratesA2 "BTC-USD")
             sim.scenarioA)) = true.
Proof.
  apply (C4_open_trigger_law sim.ratesA1 sim.ratesA2 "BTC-USD"
           (f64.ratio 5 10000) (f64.ratio 1 10000) sim.scenarioA);
    [vm_compute; reflexivity..|].
  split; vm_compute; reflexivity.
Defined.



(** C6 with Lighter not answering. *)
Lemma C6_witness :
  exec checkFundingRates (sim.fresh sim.cfgBTC sim.lighterDown) =
    {| self := self (sim.fresh sim.cfgBTC sim.lighterDown);
       world := sim.lighterDown;
       trace := [stamp (EvGetFundingRates sim.Lighter
                          (exchange.Err "unexpected status code"))
                       (sim.fresh sim.cfgBTC sim.lighterDown)] |}.
Proof.
  apply (C6_fetch_failure_aborts (sim.fresh sim.cfgBTC sim.lighterDown)).
  vm_compute. reflexivity.
Defined.

(** C7 at scenario E: the long order fails. *)
Lemma C7_witness :
  let m' := exec (executeArbitrage "BTC-USD" sim.Extended sim.Lighter
                    (f64.ratio 4 10000)) sim.scenarioE in
  absent (is_leg_attempt exchange.Sell) (since sim.scenarioE m') /\
  positions (self m') = positions (self sim.scenarioE).
Proof.
  apply (C7_leg_atomicity "BTC-USD" sim.Extended sim.Lighter (f64.ratio 4 10000)
           sim.scenarioE).
  vm_compute. reflexivity.
Defined.

Lemma closingLongFails_reachable : reachable sim.closingLongFails.
Proof. apply reachable_world, scenarioB_reachable. Qed.

(** C8 with the long close refused: the short close is attempted all the
    same and the entry stays removed. *)
Lemma C8_witness :
  let m' := exec (closeArbitrage sim.heldBTC) sim.closingLongFails in
  (occurs (is_close_attempt exchange.Sell) (since sim.closingLongFails m')
     = true /\
   positions (self m') !! "BTC-USD" = None) /\
  (occurs (is_close_attempt exchange.Buy) (since sim.closingLongFails m')
     = true /\
   occurs (is_close_attempt exchange.Sell) (since sim.closingLongFails m')
     = true).
Proof.
  assert (is_Some (positions (self sim.closingLongFails)
                     !! Market sim.heldBTC)) as Hfiled.
  { exists sim.heldBTC. vm_compute. reflexivity. }
  destruct (C8_closing_sequence sim.heldBTC sim.closingLongFails)
    as (_ & Hheld & Hboth).
  destruct (Hheld Hfiled) as (_ & _ & _ & Hlong & _).
  split.
  - apply Hlong. vm_compute. reflexivity.
  - apply Hboth; [exact closingLongFails_reachable|exact Hfiled].
Defined.

Example closingLongFails_events :
  map event (since sim.closingLongFails
               (exec (closeArbitrage sim.heldBTC) sim.closingLongFails)) =
  [EvCloseArbitrage sim.heldBTC;
   EvClosePosition sim.Extended "BTC-USD" exchange.Buy
     (f64.of_Z 20 / f64.of_Z 60000)
     (exchange.Err "close rejected");
   EvNotify "CLOSE LONG" "Extended" "BTC-USD" (f64.of_Z 20) (Some "close rejected");
   EvClosePosition sim.Lighter "BTC-USD" exchange.Sell
     (f64.of_Z 20 / f64.of_Z 60000)
     (exchange.Ok (exchange.mkOrder "close" "BTC-USD" exchange.Sell
                     exchange.Market f64.zero
                     (f64.of_Z 20 / f64.of_Z 60000) f64.zero "OPEN" 0));
   EvNotify "CLOSE SHORT" "Lighter" "BTC-USD" (f64.of_Z 20) None].
Proof. vm_compute. reflexivity. Qed.

(** C9 on a market without placeholder price. *)
Lemma C9_witness :
  let m' := exec (executeArbitrage "SOL-USD" sim.Extended sim.Lighter
                    (f64.ratio 4 10000)) sim.watchingSOL in
  positions (self m') = positions (self sim.watchingSOL) /\
  absent is_network_call (since sim.watchingSOL m').
Proof.
  apply (C9_reference_price "SOL-USD" sim.Extended sim.Lighter (f64.ratio 4 10000)
           sim.watchingSOL).
  vm_compute. reflexivity.
Defined.

(** C10 on a position in a market without placeholder price. *)
Lemma C10_witness :
  let m' := exec (closeArbitrage sim.heldSOL) sim.holdingSOL in
  positions (self m') =
    delete (Market sim.heldSOL) (positions (self sim.holdingSOL)) /\
  positions (self m') !! Market sim.heldSOL = None /\
  absent is_network_call (since sim.holdingSOL m').
Proof.
  apply (C10_close_without_price sim.heldSOL sim.holdingSOL).
  - exists sim.heldSOL. vm_compute. reflexivity.
  - vm_compute. discriminate.
  - vm_compute. discriminate.
Defined.


(** * Further properties: cycles, runs and the venues *)

Section RunProperties.
Context {E W : Type} `{!exchange.Exchange E W} `{!runtime.Range W}.

Implicit Types (m : Machine E W) (s : Strategy E) (p : PositionInfo E).

(** ** The rate lookups *)

Lemma ratesMap_snoc rates r :
  ratesMap (rates ++ [r]) =
    <[exchange.FundingRate_Market r := exchange.FundingRate_Rate r]>
      (ratesMap rates).
Proof. unfold ratesMap. by rewrite foldl_app. Qed.

Lemma ratesMap_None rates k :
  ratesMap rates !! k = None <->
  Forall (fun r => exchange.FundingRate_Market r <> k) rates.
Proof.
  induction rates as [|r rates IH] using rev_ind.
  - split; [constructor|intros _; apply lookup_empty].
  - rewrite ratesMap_snoc, lookup_insert_None, Forall_app, Forall_singleton, IH.
    done.
Qed.

(** X1.  The lookup built from a fetched slice has a market exactly when
    the slice quotes it, and when a slice quotes a market several times the
    last quote is the one kept. *)
Theorem X1_ratesMap_last_write_wins rates :
  (forall k, ratesMap rates !! k = None <->
             Forall (fun r => exchange.FundingRate_Market r <> k) rates) /\
  (forall front r back,
      rates = front ++ r :: back ->
      Forall (fun r' => exchange.FundingRate_Market r' <>
                        exchange.FundingRate_Market r) back ->
      ratesMap rates !! exchange.FundingRate_Market r =
        Some (exchange.FundingRate_Rate r)).
Proof.
  split; [intros k; apply ratesMap_None|].
  intros front r back -> Hback.
  induction back as [|r' back IH] using rev_ind.
  - by rewrite ratesMap_snoc, lookup_insert_eq.
  - rewrite Forall_app, Forall_singleton in Hback.
    destruct Hback as [Hback Hr'].
    rewrite app_comm_cons, app_assoc, ratesMap_snoc.
    rewrite lookup_insert_ne; [by apply IH|exact Hr'].
Qed.

(** ** Induction over runs *)

Lemma evaluateMarket_closed (P : Machine E W -> Prop) rates1Map rates2Map
    market m :
  step_closed P -> P m ->
  P (exec (evaluateMarket rates1Map rates2Map market) m).
Proof.
  intros (Hrel & _ & Hopen & Hclose & _) HP.
  destruct (rates1Map !! market) as [rate1|] eqn:H1;
    [|unfold exec; rewrite evaluateMarket_skip; auto].
  destruct (rates2Map !! market) as [rate2|] eqn:H2;
    [|unfold exec; rewrite evaluateMarket_skip; auto].
  destruct (positions (self m) !! market) as [position|] eqn:Hp.
  - rewrite (evaluateMarket_held _ _ _ _ _ _ _ H1 H2 Hp).
    destruct (_ || _); [|by apply Hrel].
    apply (Hclose _ market); [exact Hp|by apply Hrel].
  - destruct (f64.abs (rate1 - rate2) >?
              config.MinFundingRateDiff (config (self m))) eqn:Hd.
    + rewrite (evaluateMarket_open _ _ _ _ _ _ H1 H2 Hp Hd).
      destruct (rate1 - rate2 >? f64.zero); apply Hopen; auto; [by left|by right].
    + rewrite (evaluateMarket_idle _ _ _ _ _ _ H1 H2 Hp Hd). by apply Hrel.
Qed.

Lemma forEach_closed (P : Machine E W -> Prop) rates1Map rates2Map markets m :
  step_closed P -> P m ->
  P (exec (forEach markets (evaluateMarket rates1Map rates2Map)) m).
Proof.
  intros Hclosed. revert m.
  induction markets as [|market markets IH]; intros m HP; [done|].
  cbn [forEach]. rewrite exec_bind. apply IH.
  exact (evaluateMarket_closed P _ _ market m Hclosed HP).
Qed.

Lemma checkFundingRates_closed (P : Machine E W -> Prop) m :
  step_closed P -> P m -> P (exec checkFundingRates m).
Proof.
  intros Hclosed HP. pose proof Hclosed as (_ & Hfetch & _).
  unfold checkFundingRates.
  rewrite exec_bind. cbn [gets fst snd]. rewrite exec_bind.
  destruct (callGetFundingRates_run (exchange1 (self m)) m)
    as (r1 & w1 & _ & ->). cbn [fst snd].
  pose proof (Hfetch m (exchange1 (self m)) r1 w1 HP) as HP1.
  destruct r1 as [rates1|e1]; [|done].
  rewrite exec_bind. cbn [gets fst snd]. rewrite exec_bind.
  match goal with |- context [callGetFundingRates ?ex ?m1] =>
    destruct (callGetFundingRates_run ex m1) as (r2 & w2 & _ & ->);
    pose proof (Hfetch m1 ex r2 w2 HP1) as HP2
  end.
  cbn [fst snd]. destruct r2 as [rates2|e2]; [|done].
  rewrite exec_bind. cbn [gets fst snd].
  by apply forEach_closed.
Qed.

Lemma reachable_closed (P : Machine E W -> Prop) :
  step_closed P ->
  (forall cfg ex1 ex2 tn w,
      P {| self := NewFundingRateArb cfg ex1 ex2 tn; world := w;
           trace := [] |}) ->
  forall m, reachable m -> P m.
Proof.
  intros Hclosed Hnew m Hr.
  induction Hr as [cfg ex1 ex2 tn w|m Hr IH|r1 r2 market m Hr IH
                  |m Hr IH|m w Hr IH].
  - apply Hnew.
  - by apply checkFundingRates_closed.
  - by apply evaluateMarket_closed.
  - destruct Hclosed as (Hrel & _). by apply Hrel.
  - destruct Hclosed as (_ & _ & _ & _ & Hworld). by apply Hworld.
Qed.

(** ** The aggregate exposure *)

Lemma sumSizes_snoc (visited : list (string * PositionInfo E)) kp :
  sumSizes (visited ++ [kp]) = sumSizes visited + SizeUSD kp.2.
Proof. unfold sumSizes. by rewrite foldl_app. Qed.

(** On entries of one size the loop does not depend on the order. *)
Lemma sumSizes_uniform (c : float64)
    (visited : list (string * PositionInfo E)) :
  Forall (fun kp => SizeUSD kp.2 = c) visited ->
  sumSizes visited = repeated (length visited) c.
Proof.
  induction visited as [|kp visited IH] using rev_ind; intros Hall; [done|].
  rewrite Forall_app, Forall_singleton in Hall. destruct Hall as [Hall Hkp].
  rewrite sumSizes_snoc, length_app. cbn [length].
  rewrite Nat.add_1_r, IH, Hkp by done.
  done.
Qed.

Lemma visited_uniform (c : float64) (ps : gmap string (PositionInfo E))
    (visited : list (string * PositionInfo E)) :
  visited ≡ₚ map_to_list ps ->
  (forall k p, ps !! k = Some p -> SizeUSD p = c) ->
  sumSizes visited = repeated (size ps) c.
Proof.
  intros Hperm Hall.
  rewrite (sumSizes_uniform c).
  - by rewrite Hperm, length_map_to_list.
  - rewrite Hperm. apply Forall_forall. intros [k p] Hin.
    apply elem_of_map_to_list in Hin. by eapply Hall.
Qed.

Lemma totalIn_uniform (c : float64) m :
  (forall k p, positions (self m) !! k = Some p -> SizeUSD p = c) ->
  totalIn m = repeated (size (positions (self m))) c.
Proof.
  intros Hall. unfold totalIn.
  apply visited_uniform; [apply runtime.rangeMap_visits|exact Hall].
Qed.

(** The ledger of a run is built from the empty one by the guarded insert
    of the opening sequence and the delete of the closing sequence.  The
    insert is guarded by the test of the cap on the sum over one order in
    which the ledger can be visited. *)
Lemma ledger_closed
    (Q : config.Config -> gmap string (PositionInfo E) -> Prop) :
  (forall cfg ps market longEx shortEx price visited,
      Q cfg ps -> ps !! market = None ->
      visited ≡ₚ map_to_list ps ->
      (sumSizes visited + config.PositionSizeUSD cfg >?
         config.MaxPositionUSD cfg) = false ->
      placeholderPrice market = Some price ->
      Q cfg (<[market := mkPositionInfo market longEx shortEx
                            (config.PositionSizeUSD cfg)]> ps)) ->
  (forall cfg ps market p,
      Q cfg ps -> ps !! market = Some p -> Q cfg (delete market ps)) ->
  step_closed (fun m => Q (config (self m)) (positions (self m))).
Proof.
  intros Hins Hdel. unfold step_closed. split_and!; try done.
  - intros m market longEx shortEx rateDiff _ HQ.
    destruct (executeArbitrage_spec market longEx shortEx rateDiff m)
      as (ps' & rest & Ho & _ & -> & _ & (-> & _)).
    destruct Ho; try done.
    eapply Hins; [done|done|apply runtime.rangeMap_visits|done|done].
  - intros m market position _ HQ.
    destruct (closeArbitrage_spec position m)
      as (ps' & rest & Ho & _ & -> & _ & (-> & _)).
    destruct Ho; try done; by eapply Hdel.
Qed.

Lemma reachable_ledger
    (Q : config.Config -> gmap string (PositionInfo E) -> Prop) :
  (forall cfg, Q cfg ∅) ->
  (forall cfg ps market longEx shortEx price visited,
      Q cfg ps -> ps !! market = None ->
      visited ≡ₚ map_to_list ps ->
      (sumSizes visited + config.PositionSizeUSD cfg >?
         config.MaxPositionUSD cfg) = false ->
      placeholderPrice market = Some price ->
      Q cfg (<[market := mkPositionInfo market longEx shortEx
                            (config.PositionSizeUSD cfg)]> ps)) ->
  (forall cfg ps market p,
      Q cfg ps -> ps !! market = Some p -> Q cfg (delete market ps)) ->
  forall m, reachable m -> Q (config (self m)) (positions (self m)).
Proof.
  intros Hnew Hins Hdel.
  apply (reachable_closed
           (fun m => Q (config (self m)) (positions (self m)))).
  - by apply ledger_closed.
  - intros. apply Hnew.
Qed.

Lemma sized_insert cfg (ps : gmap string (PositionInfo E)) market longEx
    shortEx visited :
  sized cfg ps -> ps !! market = None ->
  visited ≡ₚ map_to_list ps ->
  (sumSizes visited + config.PositionSizeUSD cfg >?
     config.MaxPositionUSD cfg) = false ->
  sized cfg (<[market := mkPositionInfo market longEx shortEx
                           (config.PositionSizeUSD cfg)]> ps).
Proof.
  intros [Hsize Hcap] Hfree Hperm Hroom. split.
  - intros k p. rewrite lookup_insert. case_decide; [|apply Hsize].
    by intros [= <-].
  - intros n. rewrite map_size_insert_None by done. intros [Hlo Hhi].
    destruct (decide (n = S (size ps))) as [->|Hne]; [|apply Hcap; lia].
    rewrite (visited_uniform _ ps visited Hperm Hsize) in Hroom.
    exact Hroom.
Qed.

Lemma sized_delete cfg (ps : gmap string (PositionInfo E)) market p :
  sized cfg ps -> ps !! market = Some p -> sized cfg (delete market ps).
Proof.
  intros [Hsize Hcap] Hfiled. split.
  - intros k q. rewrite lookup_delete. case_decide; [done|apply Hsize].
  - intros n. rewrite map_size_delete, Hfiled. intros [Hlo Hhi].
    apply Hcap. lia.
Qed.

Lemma reachable_sized m :
  reachable m -> sized (config (self m)) (positions (self m)).
Proof.
  apply (reachable_ledger sized).
  - intros cfg. split.
    + intros k p Hk. by rewrite lookup_empty in Hk.
    + intros n. rewrite map_size_empty. lia.
  - intros cfg ps market longEx shortEx price visited Hs Hfree Hperm Hroom _.
    by eapply sized_insert.
  - intros cfg ps market p Hs Hfiled. by eapply sized_delete.
Qed.

(** C2.  The cap on the exposure.  If the total that
    [getTotalPositionValue] returns at the opening attempt plus
    [PositionSizeUSD] is strictly greater than [MaxPositionUSD], the
    opening sequence makes no call at all and leaves the ledger as it is.
    And whenever the opening sequence, entered in a reachable state,
    changes the ledger, the total of the new ledger is not greater than
    [MaxPositionUSD], in whatever order the entries are added up: the
    test [total > MaxPositionUSD] is false, and [total <= MaxPositionUSD]
    holds unless one of the two is NaN. *)
Theorem C2_exposure_cap market longEx shortEx rateDiff m :
  let m' := exec (executeArbitrage market longEx shortEx rateDiff) m in
  (((getTotalPositionValue m).1 + config.PositionSizeUSD (config (self m)) >?
      config.MaxPositionUSD (config (self m))) = true ->
   positions (self m') = positions (self m) /\
   absent is_network_call (since m m')) /\
  (reachable m ->
   positions (self m') <> positions (self m) ->
   forall total,
     (total = (getTotalPositionValue m').1 \/
      exists visited,
        visited ≡ₚ map_to_list (positions (self m')) /\
        total = sumSizes visited) ->
     (total >? config.MaxPositionUSD (config (self m))) = false /\
     (f64.is_nan total = false ->
      f64.is_nan (config.MaxPositionUSD (config (self m))) = false ->
      (total <=? config.MaxPositionUSD (config (self m))) = true)).
Proof.
  intros m'. subst m'.
  destruct (executeArbitrage_spec market longEx shortEx rateDiff m)
    as (ps' & rest & Ho & Ht & Hps & _ & _).
  split.
  - intros Hcap. rewrite (proj1 (getTotalPositionValue_run m)) in Hcap.
    destruct (open_outcome_guarded _ _ _ _ _ _ _ Ho) as [-> ->];
      [by right; left|].
    split; [done|]. rewrite (since_app _ _ _ Ht). by repeat constructor.
  - intros Hr Hchanged total Htotal. rewrite Hps in Hchanged.
    destruct Ho as [| | | | |price o1 o2 Hnone Hcap Hprice]; try done.
    destruct (reachable_sized m Hr) as [Hsize _].
    rewrite (totalIn_uniform _ m Hsize) in Hcap.
    assert (forall k p, positions
              (self (exec (executeArbitrage market longEx shortEx rateDiff)
                       m)) !! k = Some p ->
            SizeUSD p = config.PositionSizeUSD (config (self m))) as Hsize'.
    { rewrite Hps. intros k p. rewrite lookup_insert.
      case_decide; [|apply Hsize]. by intros [= <-]. }
    assert (total =
            repeated (S (size (positions (self m))))
              (config.PositionSizeUSD (config (self m)))) as ->.
    { destruct Htotal as [->|(visited & Hperm & ->)].
      - rewrite (proj1 (getTotalPositionValue_run _)).
        rewrite (totalIn_uniform _ _ Hsize'), Hps.
        by rewrite map_size_insert_None.
      - rewrite (visited_uniform _ _ _ Hperm Hsize'), Hps.
        by rewrite map_size_insert_None. }
    split; [exact Hcap|].
    intros Hnan1 Hnan2. by apply f64_not_gtb_leb.
Qed.

Lemma ledger_wf_size (ps : gmap string (PositionInfo E)) :
  ledger_wf ps -> (size ps <= 2)%nat.
Proof.
  intros Hwf.
  assert (dom ps ⊆ ({["BTC-USD"; "ETH-USD"]} : gset string)) as Hdom.
  { intros k Hk. apply elem_of_dom in Hk as [p Hp].
    destruct (Hwf k p Hp) as [_ [price Hprice]].
    unfold placeholderPrice in Hprice.
    destruct (String.eqb_spec k "BTC-USD") as [->|_]; [set_solver|].
    destruct (String.eqb_spec k "ETH-USD") as [->|_]; [set_solver|done]. }
  apply subseteq_size in Hdom. rewrite size_dom in Hdom.
  rewrite size_union, !size_singleton in Hdom; [done|set_solver].
Qed.

(** X3.  In every reachable state there are at most two positions on
    file, and every one has the configured [PositionSizeUSD] as its
    [SizeUSD], so that [getTotalPositionValue] returns [PositionSizeUSD]
    added to [0.0] once for each position, in whatever order the ledger
    is visited; and as long as a position is on file, that total is not
    greater than [MaxPositionUSD], closings included: the test
    [total > MaxPositionUSD] is false, and [total <= MaxPositionUSD] holds
    unless one of the two is NaN. *)
Theorem X3_exposure_of_runs m :
  reachable m ->
  let total := (getTotalPositionValue m).1 in
  (size (positions (self m)) <= 2)%nat /\
  (forall k p, positions (self m) !! k = Some p ->
     SizeUSD p = config.PositionSizeUSD (config (self m))) /\
  (forall visited,
     visited ≡ₚ map_to_list (positions (self m)) ->
     sumSizes visited = total) /\
  total =
    repeated (size (positions (self m)))
      (config.PositionSizeUSD (config (self m))) /\
  (positions (self m) <> ∅ ->
     (total >? config.MaxPositionUSD (config (self m))) = false /\
     (f64.is_nan total = false ->
      f64.is_nan (config.MaxPositionUSD (config (self m))) = false ->
      (total <=? config.MaxPositionUSD (config (self m))) = true)).
Proof.
  intros Hr total. subst total.
  destruct (reachable_sized m Hr) as [Hsize Hcap].
  rewrite (proj1 (getTotalPositionValue_run m)).
  rewrite (totalIn_uniform _ m Hsize).
  split_and!; [|exact Hsize| |done|].
  - apply ledger_wf_size. by destruct (reachable_Inv m Hr).
  - intros visited Hperm. by apply visited_uniform.
  - intros Hne.
    assert ((repeated (size (positions (self m)))
               (config.PositionSizeUSD (config (self m))) >?
             config.MaxPositionUSD (config (self m))) = false) as Hle.
    { apply Hcap. split; [|done].
      destruct (size (positions (self m))) eqn:Hsz; [|lia].
      by apply map_size_empty_inv in Hsz. }
    split; [exact Hle|]. intros Hnan1 Hnan2. by apply f64_not_gtb_leb.
Qed.

(** ** The mutex and the wiring *)

Lemma same_wiring_trans s1 s2 s3 :
  same_wiring s1 s2 -> same_wiring s2 s3 -> same_wiring s1 s3.
Proof.
  intros (H1 & H2 & H3 & H4) (H1' & H2' & H3' & H4').
  repeat split; congruence.
Qed.

Lemma same_wiring_closed s0 :
  step_closed (fun m => same_wiring s0 (self m)).
Proof.
  unfold step_closed. split_and!; try done.
  - intros m market longEx shortEx rateDiff _ Hs.
    destruct (executeArbitrage_spec market longEx shortEx rateDiff m)
      as (ps' & rest & _ & _ & _ & _ & Hsame).
    by eapply same_wiring_trans.
  - intros m market position _ Hs.
    destruct (closeArbitrage_spec position m)
      as (ps' & rest & _ & _ & _ & _ & Hsame).
    by eapply same_wiring_trans.
Qed.

Lemma mutex_free_closed :
  step_closed (fun m : Machine E W => mu (self m) = false).
Proof.
  unfold step_closed. split_and!; try done.
  - intros m market longEx shortEx rateDiff _ _.
    by destruct (executeArbitrage_spec market longEx shortEx rateDiff m)
      as (ps' & rest & _ & _ & _ & Hmu & _).
  - intros m market position _ _.
    by destruct (closeArbitrage_spec position m)
      as (ps' & rest & _ & _ & _ & Hmu & _).
Qed.

(** X4.  The mutex is released in every reachable state: each [Lock] is
    undone on every return path.  A cycle, started in any state, leaves
    the configuration, the two venues and the notifier of the struct as
    they were, and leaves the mutex released if it was. *)
Theorem X4_mutex_and_wiring m :
  (reachable m -> mu (self m) = false) /\
  (let s' := self (exec checkFundingRates m) in
   config s' = config (self m) /\ exchange1 s' = exchange1 (self m) /\
   exchange2 s' = exchange2 (self m) /\ notifier s' = notifier (self m)) /\
  (mu (self m) = false -> mu (self (exec checkFundingRates m)) = false).
Proof.
  split_and!.
  - apply (reachable_closed (fun m => mu (self m) = false)); [|done].
    apply mutex_free_closed.
  - apply (checkFundingRates_closed (fun m' => same_wiring (self m) (self m')));
      [apply same_wiring_closed|by repeat split].
  - apply (checkFundingRates_closed (fun m => mu (self m) = false)).
    apply mutex_free_closed.
Qed.

(** ** The notifier *)

Ltac outcome_cases Ho :=
  destruct Ho;
  unfold longLeg, shortLeg, longOrderEntry, shortOrderEntry, closeLeg,
    notified;
  repeat match goal with
         | H : notifier _ = _ |- _ => rewrite H
         end;
  cbn [app].

Lemma open_outcome_silent market longEx shortEx s total ps' rest :
  open_outcome market longEx shortEx s total ps' rest ->
  notifier s = false -> absent is_notify rest.
Proof.
  intros Ho Hoff. unfold absent.
  outcome_cases Ho; repeat first [apply Forall_nil_2 | apply Forall_cons_2];
    done.
Qed.

Lemma close_outcome_silent position s ps' rest :
  close_outcome position s ps' rest ->
  notifier s = false -> absent is_notify rest.
Proof.
  intros Ho Hoff. unfold absent.
  outcome_cases Ho; repeat first [apply Forall_nil_2 | apply Forall_cons_2];
    done.
Qed.

Lemma silent_closed :
  step_closed (fun m : Machine E W =>
                 notifier (self m) = false -> absent is_notify (trace m)).
Proof.
  unfold step_closed. split_and!; try done.
  - intros m ex r w Hm Hoff. cbn in *. unfold absent.
    rewrite Forall_app, Forall_singleton. split; [by apply Hm|done].
  - intros m market longEx shortEx rateDiff _ Hm.
    destruct (executeArbitrage_spec market longEx shortEx rateDiff m)
      as (ps' & rest & Ho & -> & _ & _ & (_ & _ & _ & ->)).
    intros Hoff. unfold absent. rewrite Forall_app, Forall_cons.
    split_and!; [by apply Hm|done|by eapply open_outcome_silent].
  - intros m market position _ Hm.
    destruct (closeArbitrage_spec position m)
      as (ps' & rest & Ho & -> & _ & _ & (_ & _ & _ & ->)).
    intros Hoff. unfold absent. rewrite Forall_app, Forall_cons.
    split_and!; [by apply Hm|done|by eapply close_outcome_silent].
Qed.

(** X5.  A strategy built with a nil notifier never sends a notification:
    in every reachable state whose notifier is nil the trace holds none. *)
Theorem X5_nil_notifier_is_silent m :
  reachable m -> notifier (self m) = false -> absent is_notify (trace m).
Proof.
  apply (reachable_closed
           (fun m => notifier (self m) = false -> absent is_notify (trace m))).
  - apply silent_closed.
  - intros. constructor.
Qed.

(** X6.  With a notifier, no order and no close goes unreported: in the
    opening and in the closing sequence every [PlaceOrder] and every
    [ClosePosition] is followed at once by a notification that names the
    action of that leg, the venue and the market, and carries the error of
    that very call (none when it succeeded). *)
Theorem X6_each_call_is_reported market longEx shortEx rateDiff position m :
  notifier (self m) = true ->
  each_call_reported
    (since m (exec (executeArbitrage market longEx shortEx rateDiff) m)) /\
  each_call_reported (since m (exec (closeArbitrage position) m)).
Proof.
  intros Hon. split.
  - destruct (executeArbitrage_since market longEx shortEx rateDiff m)
      as (ps' & rest & Ho & -> & _).
    split; [done|].
    outcome_cases Ho; cbn; repeat split; try done; intros _; by eexists.
  - destruct (closeArbitrage_since position m)
      as (ps' & rest & Ho & -> & _).
    split; [done|].
    outcome_cases Ho; cbn; repeat split; try done; intros _; by eexists.
Qed.

Ltac split_machines m1 m2 Hsame :=
  destruct m1 as [[c1 a1 b1 n1 ps1 mu1] w1 t1];
  destruct m2 as [[c2 a2 b2 n2 ps2 mu2] w2 t2];
  destruct Hsame as (Hc & Ha & Hb & Hps & Hmu & Hw & Hq);
  cbn -[quiet] in Hc, Ha, Hb, Hps, Hmu, Hw, Hq; subst c2 a2 b2 ps2 mu2 w2.

Lemma quiet_snoc (tr : list (Entry E)) en :
  quiet (tr ++ [en]) =
    quiet tr ++ (if is_notify (event en) then [] else [en]).
Proof.
  unfold quiet. rewrite List.filter_app. cbn. by destruct (is_notify _).
Qed.

Ltac same_quiet Hq :=
  unfold same_but_notifier; cbn -[quiet]; split_and!; try done;
  rewrite ?quiet_snoc; cbn -[quiet]; by rewrite ?app_nil_r, ?Hq.

Lemma executeArbitrage_same_but_notifier market longEx shortEx rateDiff
    m1 m2 :
  same_but_notifier m1 m2 ->
  same_but_notifier (exec (executeArbitrage market longEx shortEx rateDiff) m1)
                    (exec (executeArbitrage market longEx shortEx rateDiff) m2).
Proof.
  intros Hsame. split_machines m1 m2 Hsame.
  unfold executeArbitrage, executeArbitrage_locked, getTotalPositionValue,
    exec, SendPositionNotification, callPlaceOrder, Lock, Unlock, emit,
    modify, gets, bind, ret, stamp.
  cbn.
  destruct (ps1 !! market); cbn; [same_quiet Hq|].
  destruct (runtime.rangeMap ps1 w1) as [visited w0]; cbn.
  destruct (sumSizes visited + _ >? _); cbn; [same_quiet Hq|].
  destruct (placeholderPrice market) as [price|]; cbn; [|same_quiet Hq].
  destruct (exchange.PlaceOrder longEx _ _ _ _ _ _) as [[o1|e1] w1'];
    destruct n1, n2; cbn; try same_quiet Hq;
    destruct (exchange.PlaceOrder shortEx _ _ _ _ _ _) as [[o2|e2] w2'];
    cbn; try same_quiet Hq;
    match goal with
    | |- context [runtime.rangeMap ?ps ?w] =>
      destruct (runtime.rangeMap ps w) as [visited' w3]
    end; cbn; same_quiet Hq.
Qed.

Lemma closeArbitrage_same_but_notifier position m1 m2 :
  same_but_notifier m1 m2 ->
  same_but_notifier (exec (closeArbitrage position) m1)
                    (exec (closeArbitrage position) m2).
Proof.
  intros Hsame. split_machines m1 m2 Hsame.
  unfold closeArbitrage, exec, SendPositionNotification, callClosePosition,
    Lock, Unlock, emit, modify, gets, bind, ret, stamp.
  cbn.
  destruct (ps1 !! Market position); cbn; [|same_quiet Hq].
  destruct (placeholderPrice (Market position)) as [price|]; cbn;
    [|same_quiet Hq].
  destruct (exchange.ClosePosition (LongExchange position) _ _ _ _)
    as [r1 w1'];
    destruct n1, n2; cbn;
    destruct (exchange.ClosePosition (ShortExchange position) _ _ _ _)
      as [r2 w2'];
    cbn; same_quiet Hq.
Qed.

Lemma released_same_but_notifier m1 m2 :
  same_but_notifier m1 m2 -> same_but_notifier (released m1) (released m2).
Proof.
  intros (Hc & Ha & Hb & Hps & Hmu & Hw & Hq).
  unfold same_but_notifier. by cbn -[quiet].
Qed.

Lemma evaluateMarket_same_but_notifier rates1Map rates2Map market m1 m2 :
  same_but_notifier m1 m2 ->
  same_but_notifier (exec (evaluateMarket rates1Map rates2Map market) m1)
                    (exec (evaluateMarket rates1Map rates2Map market) m2).
Proof.
  intros Hsame. pose proof Hsame as (Hc & Ha & Hb & Hps & _).
  pose proof (released_same_but_notifier _ _ Hsame) as Hrel.
  destruct (rates1Map !! market) as [rate1|] eqn:H1;
    [|unfold exec; rewrite !evaluateMarket_skip; auto].
  destruct (rates2Map !! market) as [rate2|] eqn:H2;
    [|unfold exec; rewrite !evaluateMarket_skip; auto].
  destruct (positions (self m2) !! market) as [position|] eqn:Hp2;
    pose proof Hp2 as Hp1; rewrite <- Hps in Hp1.
  - rewrite (evaluateMarket_held _ _ _ _ _ _ _ H1 H2 Hp1),
      (evaluateMarket_held _ _ _ _ _ _ _ H1 H2 Hp2), Ha, Hb.
    destruct (_ || _); [|done].
    by apply closeArbitrage_same_but_notifier.
  - destruct (f64.abs (rate1 - rate2) >?
              config.MinFundingRateDiff (config (self m2))) eqn:Hd2;
      pose proof Hd2 as Hd1; rewrite <- Hc in Hd1.
    + rewrite (evaluateMarket_open _ _ _ _ _ _ H1 H2 Hp1 Hd1),
        (evaluateMarket_open _ _ _ _ _ _ H1 H2 Hp2 Hd2), Ha, Hb.
      destruct (rate1 - rate2 >? f64.zero); by apply executeArbitrage_same_but_notifier.
    + by rewrite (evaluateMarket_idle _ _ _ _ _ _ H1 H2 Hp1 Hd1),
        (evaluateMarket_idle _ _ _ _ _ _ H1 H2 Hp2 Hd2).
Qed.

Lemma forEach_same_but_notifier rates1Map rates2Map markets m1 m2 :
  same_but_notifier m1 m2 ->
  same_but_notifier
    (exec (forEach markets (evaluateMarket rates1Map rates2Map)) m1)
    (exec (forEach markets (evaluateMarket rates1Map rates2Map)) m2).
Proof.
  revert m1 m2.
  induction markets as [|market markets IH]; intros m1 m2 Hsame; [done|].
  cbn [forEach]. rewrite !exec_bind. apply IH.
  exact (evaluateMarket_same_but_notifier _ _ market m1 m2 Hsame).
Qed.

(** A cycle, spelled out. *)
Lemma checkFundingRates_run m :
  exec checkFundingRates m =
    let (r1, w1) :=
      exchange.GetFundingRates (exchange1 (self m)) (world m) in
    let m1 := {| self := self m; world := w1;
                 trace := trace m ++
                   [stamp (EvGetFundingRates (exchange1 (self m)) r1) m] |} in
    match r1 with
    | exchange.Err _ => m1
    | exchange.Ok rates1 =>
      let (r2, w2) := exchange.GetFundingRates (exchange2 (self m)) w1 in
      let m2 := {| self := self m; world := w2;
                   trace := trace m1 ++
                     [stamp (EvGetFundingRates (exchange2 (self m)) r2) m] |} in
      match r2 with
      | exchange.Err _ => m2
      | exchange.Ok rates2 =>
        exec (forEach (config.Markets (config (self m)))
                (evaluateMarket (ratesMap rates1) (ratesMap rates2))) m2
      end
    end.
Proof.
  unfold checkFundingRates, exec, bind, gets, callGetFundingRates, ret. cbn.
  destruct (exchange.GetFundingRates (exchange1 (self m)) (world m))
    as [[rates1|e1] w1]; cbn; [|done].
  destruct (exchange.GetFundingRates (exchange2 (self m)) w1)
    as [[rates2|e2] w2]; cbn; [|done].
  by destruct (forEach _ _ _).
Qed.

Lemma fetched_same_but_notifier ex r (w : W) (s1 s2 : Strategy E) tr1 tr2 :
  same_but_notifier (mkMachine s1 w tr1) (mkMachine s2 w tr2) ->
  same_but_notifier
    (mkMachine s1 w
       (tr1 ++ [mkEntry (EvGetFundingRates ex r) (mu s1) (positions s1)]))
    (mkMachine s2 w
       (tr2 ++ [mkEntry (EvGetFundingRates ex r) (mu s2) (positions s2)])).
Proof.
  intros (Hc & Ha & Hb & Hps & Hmu & Hw & Hq).
  cbn -[quiet] in Hc, Ha, Hb, Hps, Hmu, Hw, Hq.
  unfold same_but_notifier. cbn -[quiet]. split_and!; try done.
  rewrite !quiet_snoc. cbn -[quiet]. by rewrite Hq, Hps, Hmu.
Qed.

(** X7.  The notifier has no say in what the strategy does: two machines
    that differ in the notifier and in the notifications recorded, and in
    nothing else, end a cycle with the same ledger, in the same outside
    world, having made the same calls to the venues with the same
    answers. *)
Theorem X7_notifier_does_not_interfere m1 m2 :
  same_but_notifier m1 m2 ->
  same_but_notifier (exec checkFundingRates m1) (exec checkFundingRates m2).
Proof.
  intros Hsame. pose proof Hsame as (Hc & Ha & Hb & Hps & Hmu & Hw & Hq).
  rewrite !checkFundingRates_run. rewrite Ha, Hb, Hw, Hc.
  assert (forall w : W, same_but_notifier
            (mkMachine (self m1) w (trace m1))
            (mkMachine (self m2) w (trace m2))) as Hany.
  { intros w. unfold same_but_notifier. by cbn -[quiet]. }
  destruct (exchange.GetFundingRates (exchange1 (self m2)) (world m2))
    as [[rates1|e1] w1];
    [|by apply (fetched_same_but_notifier _ _ w1)].
  destruct (exchange.GetFundingRates (exchange2 (self m2)) w1)
    as [[rates2|e2] w2].
  2:{ apply (fetched_same_but_notifier _ _ w2).
      destruct (fetched_same_but_notifier (exchange1 (self m2))
                  (exchange.Ok rates1) w2 _ _ _ _ (Hany w2))
        as (? & ? & ? & ? & ? & ? & ?).
      unfold same_but_notifier. by cbn -[quiet] in *. }
  apply forEach_same_but_notifier.
  apply (fetched_same_but_notifier _ _ w2).
  destruct (fetched_same_but_notifier (exchange1 (self m2))
              (exchange.Ok rates1) w2 _ _ _ _ (Hany w2))
    as (? & ? & ? & ? & ? & ? & ?).
  unfold same_but_notifier. by cbn -[quiet] in *.
Qed.

(** ** The run loop *)

Lemma count_app f (l1 l2 : list (Entry E)) :
  count f (l1 ++ l2) = (count f l1 + count f l2)%nat.
Proof. unfold count. by rewrite List.filter_app, length_app. Qed.

Lemma count_absent f (l : list (Entry E)) : absent f l -> count f l = 0%nat.
Proof.
  unfold absent, count. induction 1 as [|en l Hen _ IH]; [done|].
  cbn. by rewrite Hen.
Qed.

Lemma evaluateMarket_no_fetch rates1Map rates2Map market m :
  exists new,
    trace (exec (evaluateMarket rates1Map rates2Map market) m) =
      trace m ++ new /\
    count is_fetch new = 0%nat.
Proof.
  destruct (rates1Map !! market) as [rate1|] eqn:H1;
    [|exists []; unfold exec; rewrite evaluateMarket_skip, app_nil_r; auto].
  destruct (rates2Map !! market) as [rate2|] eqn:H2;
    [|exists []; unfold exec; rewrite evaluateMarket_skip, app_nil_r; auto].
  destruct (positions (self m) !! market) as [position|] eqn:Hp.
  - rewrite (evaluateMarket_held _ _ _ _ _ _ _ H1 H2 Hp).
    destruct (_ || _); [|exists []; by rewrite app_nil_r].
    destruct (closeArbitrage_spec position (released m))
      as (ps' & rest & Ho & Ht & _).
    eexists. split; [exact Ht|]. apply count_absent, absent_cons.
    split; [done|]. by eapply close_outcome_absent.
  - destruct (f64.abs (rate1 - rate2) >?
              config.MinFundingRateDiff (config (self m))) eqn:Hd.
    + rewrite (evaluateMarket_open _ _ _ _ _ _ H1 H2 Hp Hd).
      destruct (rate1 - rate2 >? f64.zero);
        match goal with
        | |- context [executeArbitrage ?mk ?l ?sh ?rd] =>
          destruct (executeArbitrage_spec mk l sh rd (released m))
            as (ps' & rest & Ho & Ht & _)
        end;
        (eexists; split; [exact Ht|]; apply count_absent, absent_cons;
         split; [done|]; eapply open_outcome_Forall; [exact Ho|..]; done).
    + rewrite (evaluateMarket_idle _ _ _ _ _ _ H1 H2 Hp Hd).
      exists []. by rewrite app_nil_r.
Qed.

Lemma forEach_no_fetch rates1Map rates2Map markets m :
  exists new,
    trace (exec (forEach markets (evaluateMarket rates1Map rates2Map)) m) =
      trace m ++ new /\
    count is_fetch new = 0%nat.
Proof.
  revert m. induction markets as [|market markets IH]; intros m.
  - exists []. by rewrite app_nil_r.
  - cbn [forEach]. rewrite exec_bind.
    destruct (evaluateMarket_no_fetch rates1Map rates2Map market m)
      as (new1 & Hnew1 & Hc1).
    destruct (IH (evaluateMarket rates1Map rates2Map market m).2)
      as (new2 & -> & Hc2).
    unfold exec in Hnew1. rewrite Hnew1, <- app_assoc.
    eexists. split; [done|]. rewrite count_app. lia.
Qed.

Lemma checkFundingRates_fetches m :
  exists new,
    trace (exec checkFundingRates m) = trace m ++ new /\
    (1 <= count is_fetch new <= 2)%nat.
Proof.
  rewrite checkFundingRates_run.
  destruct (exchange.GetFundingRates (exchange1 (self m)) (world m))
    as [[rates1|e1] w1]; [|eexists; split; [done|]; cbn; lia].
  destruct (exchange.GetFundingRates (exchange2 (self m)) w1)
    as [[rates2|e2] w2];
    [|eexists; split; [cbn; by rewrite <- app_assoc|]; cbn; lia].
  cbv zeta.
  match goal with |- context [exec (forEach ?ms (evaluateMarket ?a ?b)) ?m2] =>
    destruct (forEach_no_fetch a b ms m2) as (new & -> & Hc)
  end.
  cbn. rewrite <- !app_assoc. eexists. split; [done|].
  rewrite !count_app, Hc. cbn. lia.
Qed.

Lemma Run_reachable received m :
  reachable m -> reachable (exec (Run received) m).
Proof.
  revert m. induction received as [|[|] rest IH]; intros m Hr; [done| |done].
  cbn [Run]. rewrite exec_bind. apply IH.
  exact (reachable_cycle m Hr).
Qed.

(** X8.  [Run] performs one cycle for each tick it receives before the
    first stop signal and nothing after it: whatever follows the stop
    signal is ignored, each cycle makes one or two queries for funding
    rates, and every state [Run] ends in from a reachable state is
    reachable. *)
Theorem X8_run received m :
  let n := ticks_before_stop received in
  let m' := exec (Run received) m in
  m' = exec (Run (replicate n Tick)) m /\
  (reachable m -> reachable m') /\
  (n <= count is_fetch (since m m') <= 2 * n)%nat.
Proof.
  intros n m'. subst n m'. split; [|split].
  - revert m. induction received as [|[|] rest IH]; intros m; [done| |done].
    cbn [Run ticks_before_stop replicate]. rewrite !exec_bind. apply IH.
  - apply Run_reachable.
  - assert (exists new,
              trace (exec (Run received) m) = trace m ++ new /\
              (ticks_before_stop received <= count is_fetch new
                 <= 2 * ticks_before_stop received)%nat)
      as (new & Hnew & Hc).
    { revert m. induction received as [|[|] rest IH]; intros m;
        [exists []; by rewrite app_nil_r|
        |exists []; by rewrite app_nil_r].
      cbn [Run ticks_before_stop]. rewrite exec_bind.
      destruct (checkFundingRates_fetches m) as (new1 & Hnew1 & Hc1).
      destruct (IH (checkFundingRates m).2) as (new2 & -> & Hc2).
      unfold exec in Hnew1. rewrite Hnew1, <- app_assoc.
      eexists. split; [done|]. rewrite count_app. lia. }
    rewrite (since_app _ _ _ Hnew). exact Hc.
Qed.

(** ** Whole cycles *)

Lemma evaluateMarket_about rates1Map rates2Map market m :
  Inv m ->
  exists new,
    trace (exec (evaluateMarket rates1Map rates2Map market) m) =
      trace m ++ new /\
    Forall (fun en => forall mk, event_market (event en) = Some mk ->
              mk = market /\
              is_Some (rates1Map !! mk) /\ is_Some (rates2Map !! mk)) new.
Proof.
  intros (Hwf & _ & _).
  destruct (rates1Map !! market) as [rate1|] eqn:H1;
    [|exists []; unfold exec; rewrite evaluateMarket_skip, app_nil_r; auto].
  destruct (rates2Map !! market) as [rate2|] eqn:H2;
    [|exists []; unfold exec; rewrite evaluateMarket_skip, app_nil_r; auto].
  assert (forall mk, mk = market ->
            mk = market /\ is_Some (rates1Map !! mk) /\
            is_Some (rates2Map !! mk)) as Hhere.
  { intros mk ->. rewrite H1, H2. eauto. }
  destruct (positions (self m) !! market) as [position|] eqn:Hp.
  - rewrite (evaluateMarket_held _ _ _ _ _ _ _ H1 H2 Hp).
    destruct (_ || _); [|exists []; by rewrite app_nil_r].
    destruct (Hwf _ _ Hp) as [Hmk _].
    destruct (closeArbitrage_spec position (released m))
      as (ps' & rest & Ho & Ht & _).
    eexists. split; [exact Ht|].
    constructor; [intros mk [= <-]; by apply Hhere|].
    outcome_cases Ho;
      repeat match goal with
             | |- context [if ?b then _ else _] => destruct b
             end;
      cbn [app];
      repeat first [apply Forall_nil_2 | apply Forall_cons_2];
      intros mk [= <-]; by apply Hhere.
  - destruct (f64.abs (rate1 - rate2) >?
              config.MinFundingRateDiff (config (self m))) eqn:Hd.
    + rewrite (evaluateMarket_open _ _ _ _ _ _ H1 H2 Hp Hd).
      destruct (rate1 - rate2 >? f64.zero);
        match goal with
        | |- context [executeArbitrage ?mk ?l ?sh ?rd] =>
          destruct (executeArbitrage_spec mk l sh rd (released m))
            as (ps' & rest & Ho & Ht & _)
        end;
        (eexists; split; [exact Ht|];
         constructor; [intros mk [= <-]; by apply Hhere|];
         outcome_cases Ho;
         repeat match goal with
                | |- context [if ?b then _ else _] => destruct b
                end;
         cbn [app];
         repeat first [apply Forall_nil_2 | apply Forall_cons_2];
         intros mk [= <-]; by apply Hhere).
    + rewrite (evaluateMarket_idle _ _ _ _ _ _ H1 H2 Hp Hd).
      exists []. by rewrite app_nil_r.
Qed.

Lemma forEach_about (all : list string) rates1Map rates2Map markets m :
  Inv m -> markets ⊆ all ->
  exists new,
    trace (exec (forEach markets (evaluateMarket rates1Map rates2Map)) m) =
      trace m ++ new /\
    Forall (fun en => forall mk, event_market (event en) = Some mk ->
              mk ∈ all /\
              is_Some (rates1Map !! mk) /\ is_Some (rates2Map !! mk)) new.
Proof.
  revert m. induction markets as [|market markets IH]; intros m HI Hsub.
  - exists []. by rewrite app_nil_r.
  - cbn [forEach]. rewrite exec_bind.
    destruct (evaluateMarket_about rates1Map rates2Map market m HI)
      as (new1 & Hnew1 & Hall1).
    pose proof (evaluateMarket_Inv rates1Map rates2Map market m HI) as HI1.
    destruct (IH (evaluateMarket rates1Map rates2Map market m).2)
      as (new2 & -> & Hall2);
      [exact HI1|intros x Hx; apply Hsub; by right|].
    unfold exec in Hnew1. rewrite Hnew1, <- app_assoc.
    eexists. split; [done|]. apply Forall_app. split; [|done].
    eapply Forall_impl; [exact Hall1|]. cbn.
    intros en Hen mk Hmk. destruct (Hen mk Hmk) as (-> & ? & ?).
    split; [apply Hsub; by left|done].
Qed.

(** X9.  In a cycle begun in a reachable state, whatever the strategy
    does about a market (entering the opening or closing sequence, an
    order, a close, a notification) it does about a market that is
    configured and that both venues quoted in this cycle: a market that
    either venue leaves out is left alone. *)
Theorem X9_only_configured_quoted_markets rates1 w1 rates2 w2 m :
  reachable m ->
  exchange.GetFundingRates (exchange1 (self m)) (world m) =
    (exchange.Ok rates1, w1) ->
  exchange.GetFundingRates (exchange2 (self m)) w1 =
    (exchange.Ok rates2, w2) ->
  Forall (about_quoted (config (self m)) (ratesMap rates1) (ratesMap rates2))
         (since m (exec checkFundingRates m)).
Proof.
  intros Hr Hf1 Hf2.
  pose proof (reachable_Inv m Hr) as HI.
  rewrite checkFundingRates_run, Hf1, Hf2. cbv zeta.
  match goal with |- context [exec (forEach ?ms (evaluateMarket ?a ?b)) ?m2] =>
    destruct (forEach_about ms a b ms m2) as (new & Hnew & Hall);
      [|done|]
  end.
  { apply Inv_fetched with (m := mkMachine (self m) w1 _).
    by apply Inv_fetched. }
  erewrite since_app;
    [|rewrite Hnew; cbn [trace]; rewrite <- !app_assoc; reflexivity].
  cbn [app].
  repeat (apply Forall_cons_2; [by intros mk|]). exact Hall.
Qed.

Lemma evaluateMarket_calm rates1Map rates2Map market m :
  exchange.Name (exchange1 (self m)) <> exchange.Name (exchange2 (self m)) ->
  calm_market (self m) rates1Map rates2Map market ->
  exec (evaluateMarket rates1Map rates2Map market) m = m \/
  exec (evaluateMarket rates1Map rates2Map market) m = released m.
Proof.
  intros Hnames Hcalm. unfold calm_market in Hcalm.
  destruct (rates1Map !! market) as [rate1|] eqn:H1;
    [|left; unfold exec; rewrite evaluateMarket_skip; auto].
  destruct (rates2Map !! market) as [rate2|] eqn:H2;
    [|left; unfold exec; rewrite evaluateMarket_skip; auto].
  right.
  destruct (positions (self m) !! market) as [position|] eqn:Hp.
  - rewrite (evaluateMarket_held _ _ _ _ _ _ _ H1 H2 Hp).
    apply String.eqb_neq in Hnames as Hne12.
    assert (String.eqb (exchange.Name (exchange2 (self m)))
              (exchange.Name (exchange1 (self m))) = false) as Hne21.
    { apply String.eqb_neq. congruence. }
    destruct Hcalm as [[-> Hd]|[-> Hd]];
      rewrite String.eqb_refl, ?Hne12, ?Hne21.
    + by rewrite Hd.
    + by rewrite Hd.
  - by apply (evaluateMarket_idle _ _ _ _ _ _ H1 H2 Hp).
Qed.

Lemma forEach_calm rates1Map rates2Map markets m :
  exchange.Name (exchange1 (self m)) <> exchange.Name (exchange2 (self m)) ->
  Forall (calm_market (self m) rates1Map rates2Map) markets ->
  let m' := exec (forEach markets (evaluateMarket rates1Map rates2Map)) m in
  positions (self m') = positions (self m) /\
  world m' = world m /\ trace m' = trace m.
Proof.
  revert m. induction markets as [|market markets IH];
    intros m Hnames Hcalm; [done|].
  apply Forall_cons in Hcalm as [Hhere Hrest].
  cbn [forEach]. cbv zeta. rewrite exec_bind.
  change ((evaluateMarket rates1Map rates2Map market m).2)
    with (exec (evaluateMarket rates1Map rates2Map market) m).
  destruct (evaluateMarket_calm _ _ _ _ Hnames Hhere) as [->| ->].
  - by apply IH.
  - by apply (IH (released m)).
Qed.

(** X10.  For a strategy whose two venues bear different names, a cycle
    in which both queries succeed and every configured market is calm
    (left out by a venue; or free with [math.Abs(diff) > MinFundingRateDiff]
    false; or held with its short leg on [exchange1] and [diff <= 0]
    false, or on [exchange2] and [diff >= 0] false) makes the two queries
    and nothing else: no order, no close, no notification, and the ledger
    is as before.  A position, once open, is thus held below the opening
    threshold until the differential reaches zero or changes sign. *)
Theorem X10_calm_cycle rates1 w1 rates2 w2 m :
  exchange.Name (exchange1 (self m)) <> exchange.Name (exchange2 (self m)) ->
  exchange.GetFundingRates (exchange1 (self m)) (world m) =
    (exchange.Ok rates1, w1) ->
  exchange.GetFundingRates (exchange2 (self m)) w1 =
    (exchange.Ok rates2, w2) ->
  Forall (calm_market (self m) (ratesMap rates1) (ratesMap rates2))
         (config.Markets (config (self m))) ->
  let m' := exec checkFundingRates m in
  positions (self m') = positions (self m) /\
  world m' = w2 /\
  since m m' =
    [stamp (EvGetFundingRates (exchange1 (self m)) (exchange.Ok rates1)) m;
     stamp (EvGetFundingRates (exchange2 (self m)) (exchange.Ok rates2)) m].
Proof.
  intros Hnames Hf1 Hf2 Hcalm m'. subst m'.
  rewrite checkFundingRates_run, Hf1, Hf2. cbv zeta.
  match goal with |- context [exec (forEach ?ms (evaluateMarket ?a ?b)) ?m2] =>
    destruct (forEach_calm a b ms m2) as (Hps & Hw & Ht); [done..|]
  end.
  rewrite Hps, Hw. split_and!; [done..|].
  apply since_app. rewrite Ht. cbn. by rewrite <- app_assoc.
Qed.

(** ** The stray leg *)

Lemma executeArbitrage_stray market longEx shortEx rateDiff price m :
  positions (self m) !! market = None ->
  (totalIn m + config.PositionSizeUSD (config (self m)) >?
     config.MaxPositionUSD (config (self m))) = false ->
  placeholderPrice market = Some price ->
  (forall w amount limit, exists o w',
      exchange.PlaceOrder longEx market exchange.Buy exchange.Market
        amount limit w = (exchange.Ok o, w')) ->
  (forall w amount limit, exists e w',
      exchange.PlaceOrder shortEx market exchange.Sell exchange.Market
        amount limit w = (exchange.Err e, w')) ->
  let m' := exec (executeArbitrage market longEx shortEx rateDiff) m in
  positions (self m') = positions (self m) /\
  same_wiring (self m) (self m') /\
  exists new,
    trace m' = trace m ++ new /\
    count (is_leg_success exchange.Buy) new = 1%nat /\
    count (is_leg_success exchange.Sell) new = 0%nat.
Proof.
  intros Hp Hcap Hprice Hfill Hrefuse m'. subst m'.
  unfold totalIn in Hcap.
  unfold executeArbitrage, executeArbitrage_locked, getTotalPositionValue,
    exec, SendPositionNotification, callPlaceOrder, Lock, Unlock, emit,
    modify, gets, bind, ret, stamp.
  cbn. rewrite Hp. cbn.
  destruct (runtime.rangeMap (positions (self m)) (world m))
    as [visited w0]; cbn [fst] in Hcap; cbn.
  fold (sumSizes visited). rewrite Hcap, Hprice. cbn.
  destruct (Hfill w0
              (config.PositionSizeUSD (config (self m)) / price) price)
    as (o & w1 & ->). cbn.
  destruct (notifier (self m)) eqn:Htn; cbn;
    (destruct (Hrefuse w1
                 (config.PositionSizeUSD (config (self m)) / price) price)
       as (e & w2 & ->); cbn; rewrite ?Htn; cbn;
     split_and!; [done|by repeat split|];
     eexists; rewrite <- !app_assoc; split; [reflexivity|]; by cbn).
Qed.

(** X11.  The ledger does not know of a stray long leg.  Take a market
    that both venues quote, that has no position on file and a
    placeholder price, with [math.Abs(diff) > MinFundingRateDiff] and with
    the test of the cap not firing in whatever order the ledger is added
    up.  Where the venue of the long leg fills buy orders and the venue of
    the short leg refuses sell orders, every evaluation of that market
    places one more long order and records nothing: after [n] evaluations
    [n] long orders have been filled, no short order has, and the ledger
    is as before, so that the cap on the exposure on file does not bound
    what is held on the venue. *)
Theorem X11_stray_long_legs_pile_up rates1Map rates2Map market rate1 rate2
    price (n : nat) m :
  let diff := rate1 - rate2 in
  let longEx :=
    if diff >? f64.zero then exchange2 (self m) else exchange1 (self m) in
  let shortEx :=
    if diff >? f64.zero then exchange1 (self m) else exchange2 (self m) in
  rates1Map !! market = Some rate1 ->
  rates2Map !! market = Some rate2 ->
  positions (self m) !! market = None ->
  (f64.abs diff >? config.MinFundingRateDiff (config (self m))) = true ->
  (forall visited,
     visited ≡ₚ map_to_list (positions (self m)) ->
     (sumSizes visited + config.PositionSizeUSD (config (self m)) >?
        config.MaxPositionUSD (config (self m))) = false) ->
  placeholderPrice market = Some price ->
  (forall w amount limit, exists o w',
      exchange.PlaceOrder longEx market exchange.Buy exchange.Market
        amount limit w = (exchange.Ok o, w')) ->
  (forall w amount limit, exists e w',
      exchange.PlaceOrder shortEx market exchange.Sell exchange.Market
        amount limit w = (exchange.Err e, w')) ->
  let m' := Nat.iter n (exec (evaluateMarket rates1Map rates2Map market)) m in
  positions (self m') = positions (self m) /\
  count (is_leg_success exchange.Buy) (since m m') = n /\
  count (is_leg_success exchange.Sell) (since m m') = 0%nat.
Proof.
  intros diff longEx shortEx H1 H2 Hp Hd Hcap Hprice Hfill Hrefuse m'.
  assert (positions (self m') = positions (self m) /\
          same_wiring (self m) (self m') /\
          exists new,
            trace m' = trace m ++ new /\
            count (is_leg_success exchange.Buy) new = n /\
            count (is_leg_success exchange.Sell) new = 0%nat)
    as (Hps & _ & new & Hnew & Hb & Hs).
  { subst m'. induction n as [|n IH].
    - split_and!; [done|by repeat split|].
      exists []. by rewrite app_nil_r.
    - rewrite Nat.iter_succ.
      destruct IH as (Hps & (Hc & Ha & Hb & Htn) & new & Hnew & Hcb & Hcs).
      remember (Nat.iter n (exec (evaluateMarket rates1Map rates2Map market)) m)
        as mn eqn:Hmn. clear Hmn.
      assert (positions (self mn) !! market = None) as Hpn
        by (by rewrite Hps).
      assert ((f64.abs (rate1 - rate2) >?
                 config.MinFundingRateDiff (config (self mn))) = true)
        as Hdn by (by rewrite Hc).
      rewrite (evaluateMarket_open _ _ _ _ _ _ H1 H2 Hpn Hdn).
      rewrite Ha, Hb.
      assert (forall rd,
        let m1 := exec (executeArbitrage market longEx shortEx rd)
                       (released mn) in
        positions (self m1) = positions (self m) /\
        same_wiring (self m) (self m1) /\
        exists new1,
          trace m1 = trace m ++ new1 /\
          count (is_leg_success exchange.Buy) new1 = S n /\
          count (is_leg_success exchange.Sell) new1 = 0%nat) as Hstep.
      { intros rd m1. subst m1.
        destruct (executeArbitrage_stray market longEx shortEx rd price
                    (released mn))
          as (Hps1 & (Hc1 & Ha1 & Hb1 & Htn1) & new1 & Hnew1 & Hcb1 & Hcs1);
          try done.
        { change ((sumSizes (runtime.rangeMap (positions (self mn))
                               (world mn)).1 +
                     config.PositionSizeUSD (config (self mn)) >?
                   config.MaxPositionUSD (config (self mn))) = false).
          rewrite Hc. apply Hcap. rewrite <- Hps.
          apply runtime.rangeMap_visits. }
        split_and!.
        - rewrite Hps1. cbn. exact Hps.
        - repeat split;
            [exact (eq_trans Hc1 Hc)|exact (eq_trans Ha1 Ha)
            |exact (eq_trans Hb1 Hb)|exact (eq_trans Htn1 Htn)].
        - exists (new ++ new1). rewrite Hnew1. cbn. rewrite Hnew, <- app_assoc.
          split; [done|]. rewrite !count_app. lia. }
      subst longEx shortEx. fold diff.
      destruct (diff >? f64.zero); apply Hstep. }
  rewrite (since_app _ _ _ Hnew). done.
Qed.

(** ** A first venue that does not quote *)

Lemma checkFundingRates_down m :
  (forall w, exists e w',
      exchange.GetFundingRates (exchange1 (self m)) w = (exchange.Err e, w')) ->
  exists e w',
    exchange.GetFundingRates (exchange1 (self m)) (world m) =
      (exchange.Err e, w') /\
    exec checkFundingRates m =
      {| self := self m; world := w';
         trace := trace m ++
           [stamp (EvGetFundingRates (exchange1 (self m)) (exchange.Err e))
                  m] |}.
Proof.
  intros Hdown. destruct (Hdown (world m)) as (e & w' & He).
  exists e, w'. split; [done|]. by rewrite checkFundingRates_run, He.
Qed.

(** X12.  A first venue whose query for funding rates always fails stops
    the strategy altogether: over a whole run the strategy struct stays
    as it was (ledger included) and the trace grows by one failed query
    of the first venue for each tick and by nothing else, so that no
    cycle gets to its second query, no order is placed, no position is
    closed and no notification is sent. *)
Theorem X12_first_venue_down received m :
  (forall w, exists e w',
      exchange.GetFundingRates (exchange1 (self m)) w = (exchange.Err e, w')) ->
  let m' := exec (Run received) m in
  self m' = self m /\
  length (since m m') = ticks_before_stop received /\
  Forall (fun en => exists e,
            en = stamp (EvGetFundingRates (exchange1 (self m))
                          (exchange.Err e)) m)
         (since m m').
Proof.
  intros Hdown m'. subst m'.
  assert (exists new,
            self (exec (Run received) m) = self m /\
            trace (exec (Run received) m) = trace m ++ new /\
            length new = ticks_before_stop received /\
            Forall (fun en => exists e,
                      en = stamp (EvGetFundingRates (exchange1 (self m))
                                    (exchange.Err e)) m) new)
    as (new & Hs & Hnew & Hlen & Hall).
  { revert m Hdown.
    induction received as [|[|] rest IH]; intros m Hdown;
      [exists []; by rewrite app_nil_r|
      |exists []; by rewrite app_nil_r].
    cbn [Run ticks_before_stop]. rewrite exec_bind.
    destruct (checkFundingRates_down m Hdown) as (e & w' & _ & Hm1).
    unfold exec in Hm1. rewrite Hm1.
    match goal with |- context [exec (Run rest) ?m1] =>
      destruct (IH m1) as (new & Hs & Hnew & Hlen & Hall); [exact Hdown|]
    end.
    exists (stamp (EvGetFundingRates (exchange1 (self m)) (exchange.Err e)) m
              :: new).
    rewrite Hs, Hnew. cbn [self trace length]. rewrite <- app_assoc.
    split_and!; [done|done|by rewrite Hlen|].
    apply Forall_cons_2; [by exists e|exact Hall]. }
  rewrite (since_app _ _ _ Hnew). done.
Qed.

End RunProperties.

(** * The venue Lighter *)

Section LighterProperties.
Import exchange.

(** X13.  The base URL of a [Lighter] follows its testnet flag: however
    often [SetTestnet] is called after [NewLighter], the result is the
    struct [NewLighter] builds for the flag set last. *)
Theorem X13_lighter_network apiKey privateKey testnet (flags : list bool) :
  foldl (fun l flag => lighter.SetTestnet flag l)
        (lighter.NewLighter apiKey privateKey testnet) flags =
  lighter.NewLighter apiKey privateKey (List.last flags testnet).
Proof.
  revert testnet. induction flags as [|flag flags IH]; intros testnet; [done|].
  cbn [foldl].
  assert (lighter.SetTestnet flag (lighter.NewLighter apiKey privateKey testnet)
          = lighter.NewLighter apiKey privateKey flag) as ->
    by (by destruct flag, testnet).
  rewrite IH. f_equal. clear IH.
  destruct flags as [|flag' flags]; [done|].
  change (List.last (flag' :: flags) flag = List.last (flag' :: flags) testnet).
  generalize flag'. induction flags as [|flag'' flags IH]; intros b; [done|].
  exact (IH flag'').
Qed.

End LighterProperties.

(** * The bot as [cmd/trade] wires it *)

Section TradeProperties.
Context {E2 W : Type} `{!exchange.Exchange E2 W} `{!runtime.Range W}.

(** X15.  The bot as [cmd/trade] builds it never trades.  Its first venue
    is a [Lighter], whose query for funding rates fails by construction,
    so that every cycle of a run ends after that query: the second venue
    is never called, the outside world and the strategy stay as they
    were, and the trace is the same failed query once for each tick. *)
Theorem X15_wired_bot_never_trades cfg (extendedEx : E2) notifier (w : W)
    received :
  let m := trade.boot cfg extendedEx notifier w in
  let m' := exec (Run received) m in
  self m' = self m /\
  world m' = w /\
  trace m' =
    replicate (ticks_before_stop received)
      (stamp (EvGetFundingRates (exchange1 (self m))
                (exchange.Err "funding rate endpoint not available in Lighter documentation"))
             m).
Proof.
  intros m m'. subst m'.
  assert (forall tr,
    let m0 := {| self := self m; world := w; trace := tr |} in
    self (exec (Run received) m0) = self m /\
    world (exec (Run received) m0) = w /\
    trace (exec (Run received) m0) =
      tr ++ replicate (ticks_before_stop received)
              (stamp (EvGetFundingRates (exchange1 (self m))
                        (exchange.Err "funding rate endpoint not available in Lighter documentation"))
                     m)) as Hrun.
  { induction received as [|[|] rest IH]; intros tr m0; subst m0;
      [by rewrite app_nil_r| |by rewrite app_nil_r].
    cbn [Run ticks_before_stop replicate]. rewrite exec_bind.
    change ((checkFundingRates
               {| self := self m; world := w; trace := tr |}).2)
      with (exec checkFundingRates
              {| self := self m; world := w; trace := tr |}).
    rewrite checkFundingRates_run. cbn -[Run replicate].
    match goal with |- context [exec (Run rest) (mkMachine _ _ ?tr1)] =>
      destruct (IH tr1) as (Hs & Hw & Ht)
    end.
    cbn -[Run replicate] in Hs, Hw, Ht.
    split_and!; [exact Hs|exact Hw|].
    rewrite Ht, <- app_assoc. done. }
  exact (Hrun []).
Qed.

End TradeProperties.

(** * The venue Extended *)

Section ExtendedProperties.
Context {Account MarketModel SignedOrder W : Type}.
Context `{!extended.SDK Account MarketModel SignedOrder W}.

Local Abbreviation Extended := (extended.Extended Account).
Local Abbreviation Net :=
  (extended.Net Account MarketModel SignedOrder W).

Implicit Types (e : Extended) (n : Net).

Ltac step_extended :=
  match goal with
  | |- context [extended.GetMarkets ?a ?b ?c] =>
    destruct (extended.GetMarkets a b c) as [[[|? ?]|?] ?] eqn:?
  | |- context [extended.Now ?a] =>
    destruct (extended.Now a) as [? ?] eqn:?
  | |- context [extended.roundTrip ?a ?b ?c ?d ?w] =>
    destruct (extended.roundTrip a b c d w) as [[[[? ?] ?]|?] ?] eqn:?
  | |- context [extended.unmarshalMarketStats ?a] =>
    destruct (extended.unmarshalMarketStats a) as [[? ?]|?] eqn:?
  | |- context [extended.ParseFloat ?a] =>
    destruct (extended.ParseFloat a) as [?|?] eqn:?
  | |- context [extended.CreateOrderObject ?a ?w] =>
    destruct (extended.CreateOrderObject a w) as [[?|?] ?] eqn:?
  | |- context [extended.SubmitOrder ?a ?b ?w] =>
    destruct (extended.SubmitOrder a b w) as [[?|?] ?] eqn:?
  | |- context [if ?b then _ else _] => destruct b eqn:?
  end.

Ltac run_extended :=
  unfold extended.PlaceOrder, extended.priceParams, extended.GetMarkPrice,
    extended.sendRequest;
  cbv beta iota zeta;
  cbn [extended.made extended.calls extended.outside fst snd];
  repeat (step_extended; cbv beta iota zeta;
          cbn [extended.made extended.calls extended.outside fst snd]).

Lemma quotes_of_markets (markets : list MarketModel) front :
  foldl (fun fundingRates market =>
           fundingRates ++
             [{| exchange.FundingRate_Market := extended.Market_Name market;
                 exchange.FundingRate_Rate :=
                   extended.Market_FundingRate market;
                 exchange.FundingRate_NextTime := 0 |}])
        front markets =
  front ++
    map (fun market =>
           exchange.mkFundingRate (extended.Market_Name market)
             (extended.Market_FundingRate market) 0) markets.
Proof.
  revert front. induction markets as [|market markets IH]; intros front.
  - by rewrite app_nil_r.
  - cbn [foldl map]. rewrite IH, <- app_assoc. done.
Qed.

(** X16.  What Extended quotes is what the SDK lists: where the SDK
    answers a list of markets, [GetFundingRates] makes that one call and
    answers one quote for each market, in the same order, with its name
    and funding rate and no time of the next payment, so that the lookup
    the strategy builds from the answer has exactly the markets the SDK
    listed. *)
Theorem X16_extended_quotes e n markets w :
  extended.GetMarkets (extended.client e) [] (extended.outside n) =
    (exchange.Ok markets, w) ->
  let rates :=
    map (fun market =>
           exchange.mkFundingRate (extended.Market_Name market)
             (extended.Market_FundingRate market) 0) markets in
  extended.GetFundingRates e n =
    (exchange.Ok rates,
     extended.made (extended.CallGetMarkets (extended.client e) []) w n) /\
  forall mk,
    is_Some (ratesMap rates !! mk) <->
    mk ∈ map extended.Market_Name markets.
Proof.
  intros Hm rates. split.
  - unfold extended.GetFundingRates. rewrite Hm.
    by rewrite quotes_of_markets.
  - intros mk. rewrite <- not_eq_None_Some, ratesMap_None.
    subst rates. rewrite Forall_map, list_elem_of_fmap.
    cbn [exchange.FundingRate_Market]. split.
    + intros Hnot. apply not_Forall_Exists in Hnot; [|intros x; apply _].
      apply Exists_exists in Hnot as (market & Hin & Hname).
      exists market. split; [|done].
      by destruct (decide (extended.Market_Name market = mk)).
    + intros (market & -> & Hin) Hall.
      rewrite Forall_forall in Hall. by apply (Hall market).
Qed.

(** X17.  The calls of one [PlaceOrder] on Extended: it asks the SDK for
    the market once, asks for the mark price at most once and never for
    a limit order, builds at most one order and submits at most one; and
    it answers an order only after one was submitted, the answer echoing
    the market, the side, the type, the amount and the price it was
    called with. *)
Theorem X17_extended_call_budget e market side orderType amount price n :
  let r := (extended.PlaceOrder e market side orderType amount price n).1 in
  let n' := (extended.PlaceOrder e market side orderType amount price n).2 in
  exists rest,
    extended.calls n' =
      extended.calls n ++
        extended.CallGetMarkets (extended.client e) [market] :: rest /\
    extended.count_calls extended.is_get_markets rest = 0%nat /\
    (extended.count_calls extended.is_round_trip rest <=
       match orderType with exchange.Market => 1 | exchange.Limit => 0 end)%nat /\
    (extended.count_calls extended.is_submit rest <=
       extended.count_calls extended.is_create rest <= 1)%nat /\
    (forall o, r = exchange.Ok o ->
       extended.count_calls extended.is_submit rest = 1%nat /\
       exchange.Order_Market o = market /\
       exchange.Order_Side o = side /\
       exchange.Order_Type o = orderType /\
       exchange.Order_Amount o = amount /\
       exchange.Order_Price o = price).
Proof.
  intros r n'. subst r n'. destruct orderType, side; run_extended;
    (eexists; split;
     [rewrite <- ?app_assoc; cbn [app]; reflexivity|]);
    cbn; split_and!; try lia; intros o Ho; try discriminate;
    injection Ho as <-; done.
Qed.

(** X18.  Extended ignores the price of a market order.  Two market
    orders that differ in the price only make the same calls with the
    same arguments, leave the outside world in the same state, and fail
    alike or succeed alike, the answers differing in nothing but the
    price they echo. *)
Theorem X18_extended_market_price_ignored e market side amount price1 price2
    n :
  let run1 :=
    extended.PlaceOrder e market side exchange.Market amount price1 n in
  let run2 :=
    extended.PlaceOrder e market side exchange.Market amount price2 n in
  run1.2 = run2.2 /\
  match run1.1, run2.1 with
  | exchange.Ok o1, exchange.Ok o2 =>
    exchange.Order_Price o1 = price1 /\
    o2 = {| exchange.Order_ID := exchange.Order_ID o1;
            exchange.Order_Market := exchange.Order_Market o1;
            exchange.Order_Side := exchange.Order_Side o1;
            exchange.Order_Type := exchange.Order_Type o1;
            exchange.Order_Price := price2;
            exchange.Order_Amount := exchange.Order_Amount o1;
            exchange.Order_Filled := exchange.Order_Filled o1;
            exchange.Order_Status := exchange.Order_Status o1;
            exchange.Order_Timestamp := exchange.Order_Timestamp o1 |}
  | exchange.Err e1, exchange.Err e2 => e1 = e2
  | _, _ => False
  end.
Proof.
  intros run1 run2. subst run1 run2. destruct side; run_extended; done.
Qed.

Lemma SetTestnet_NewExtended apiKey privateKey publicKey vaultID net flag e0 :
  extended.NewExtended apiKey privateKey publicKey vaultID net = Some e0 ->
  let e := extended.SetTestnet flag e0 in
  extended.APIBaseURL (extended.client_cfg (extended.client e)) =
    extended.networkURL net +:+ "/api/v1" /\
  extended.baseURL e = extended.networkURL flag /\
  extended.testnet e = flag.
Proof.
  intros Hnew. unfold extended.NewExtended in Hnew.
  destruct (extended.NewStarkPerpetualAccount _ _ _ _); [|done].
  injection Hnew as <-. by destruct net, flag.
Qed.

(** X19.  [SetTestnet] moves only half of an Extended.  The SDK client
    keeps the address [NewExtended] gave it, while the requests of
    [sendRequest] and the chain orders are signed for follow the flag set
    last: after [SetTestnet flag] on a venue built for the network [net],
    every call a [PlaceOrder] makes through the SDK client goes to [net],
    the mark price is asked of the network of [flag], and the order is
    signed for the chain of [flag]. *)
Theorem X19_extended_network_split apiKey privateKey publicKey vaultID
    net flag e0 market side orderType amount price n :
  extended.NewExtended apiKey privateKey publicKey vaultID net = Some e0 ->
  let e := extended.SetTestnet flag e0 in
  let n' := (extended.PlaceOrder e market side orderType amount price n).2 in
  exists rest,
    extended.calls n' =
      extended.calls n ++
        extended.CallGetMarkets (extended.client e) [market] :: rest /\
    Forall (extended.goes_to net flag flag)
      (extended.CallGetMarkets (extended.client e) [market] :: rest).
Proof.
  intros Hnew e n'.
  destruct (SetTestnet_NewExtended _ _ _ _ _ flag _ Hnew) as (Hsdk & Hurl & Hflag).
  fold e in Hsdk, Hurl, Hflag. clearbody e. subst n'.
  assert (extended.Domain_ChainID (extended.getStarknetDomain e) =
          extended.chainID flag) as Hchain.
  { unfold extended.getStarknetDomain. rewrite Hflag. by destruct flag. }
  destruct orderType, side; run_extended;
    (eexists; split;
     [rewrite <- ?app_assoc; cbn [app]; reflexivity|]);
    repeat first [apply Forall_nil_2 | apply Forall_cons_2];
    cbn [extended.goes_to extended.Params_StarknetDomain]; try done;
    rewrite Hurl; by eexists.
Qed.

End ExtendedProperties.

(** * Closing against opening *)

Section ClosingProperties.
Context {E W : Type} `{!exchange.Exchange E W} `{!runtime.Range W}.

Implicit Types (m : Machine E W) (p : PositionInfo E).

(** X20.  In a run a position is closed as it was opened.  For a position
    on file the closing sequence finds a placeholder price, and it asks
    the venue of the long leg and then the venue of the short leg, which
    are the two venues of the strategy, to close the amount the opening
    orders were placed for: the configured position size divided by the
    placeholder price of the market. *)
Theorem X20_close_mirrors_open market p m :
  reachable m ->
  positions (self m) !! market = Some p ->
  let m' := exec (closeArbitrage p) m in
  exists price r1 r2,
    placeholderPrice market = Some price /\
    legs_of (self m) (LongExchange p) (ShortExchange p) /\
    map event (quiet (since m m')) =
      [EvCloseArbitrage p;
       EvClosePosition (LongExchange p) market exchange.Buy
         (config.PositionSizeUSD (config (self m)) / price) r1;
       EvClosePosition (ShortExchange p) market exchange.Sell
         (config.PositionSizeUSD (config (self m)) / price) r2].
Proof.
  intros Hr Hp m'. subst m'.
  destruct (reachable_Inv m Hr) as (Hwf & _ & Hlegs).
  destruct (Hwf _ _ Hp) as [Hmk [price Hprice]].
  pose proof (proj1 (reachable_sized m Hr) _ _ Hp) as Hsize.
  destruct (closeArbitrage_spec p m) as (ps' & rest & Ho & Ht & _).
  rewrite (since_app _ _ _ Ht).
  exists price.
  destruct Ho as [Hnone|p0 Hp0 Hnoprice|p0 price0 r1 r2 Hp0 Hprice0].
  - rewrite Hmk in Hnone. congruence.
  - rewrite Hmk in Hnoprice. congruence.
  - rewrite Hmk in Hprice0. assert (price0 = price) as -> by congruence.
    exists r1, r2. split_and!; [done|by eapply Hlegs|].
    unfold closeLeg, notified. rewrite Hmk, Hsize.
    by destruct (notifier (self m)).
Qed.

End ClosingProperties.

(** * The further properties at work *)

(** X1 on a slice that quotes BTC-USD twice and SOL-USD not at all. *)
Lemma X1_witness :
  ratesMap scenarios.ratesTwice !! "BTC-USD" = Some (f64.ratio 3 10000) /\
  ratesMap scenarios.ratesTwice !! "SOL-USD" = None.
Proof.
  destruct (X1_ratesMap_last_write_wins scenarios.ratesTwice)
    as [Hnone Hlast].
  split.
  - apply (Hlast [sim.quote "BTC-USD" (f64.ratio 1 10000);
                  sim.quote "ETH-USD" (f64.ratio 2 10000)]
                 (sim.quote "BTC-USD" (f64.ratio 3 10000)) []);
      [reflexivity|apply Forall_nil_2].
  - apply Hnone.
    repeat first [apply Forall_nil_2 | apply Forall_cons_2];
      vm_compute; discriminate.
Defined.

(** C2 at scenario D (90 USD on file, 20 USD per position, cap 100: no
    call, ledger as before) and at scenario A, where the position is
    opened and the total stays within the cap. *)
Lemma C2_witness :
  (let m' := exec (executeArbitrage "BTC-USD" sim.Extended sim.Lighter
                     (f64.ratio 4 10000)) sim.scenarioD in
   positions (self m') = positions (self sim.scenarioD) /\
   absent is_network_call (since sim.scenarioD m')) /\
  (let m' := exec (executeArbitrage "BTC-USD" sim.Extended sim.Lighter
                     (f64.ratio 4 10000)) sim.scenarioA in
   ((getTotalPositionValue m').1 <=? f64.of_Z 100) = true).
Proof.
  split.
  - apply (proj1 (C2_exposure_cap "BTC-USD" sim.Extended sim.Lighter
                    (f64.ratio 4 10000) sim.scenarioD)).
    vm_compute. reflexivity.
  - intros m'.
    destruct (proj2 (C2_exposure_cap "BTC-USD" sim.Extended sim.Lighter
                       (f64.ratio 4 10000) sim.scenarioA)
                (reachable_new _ _ _ _ _)
                ltac:(intros Heq;
                      apply (f_equal (fun ps => ps !! "BTC-USD")) in Heq;
                      vm_compute in Heq; discriminate)
                (getTotalPositionValue m').1 (or_introl eq_refl))
      as [_ Hle].
    apply Hle; vm_compute; reflexivity.
Defined.

Example scenarioD_exposure :
  (getTotalPositionValue sim.scenarioD).1 = f64.of_Z 90 /\
  (getTotalPositionValue
     (exec (executeArbitrage "BTC-USD" sim.Extended sim.Lighter
              (f64.ratio 4 10000)) sim.scenarioD)).1 = f64.of_Z 90.
Proof. split; vm_compute; reflexivity. Qed.

(** X3 after the first cycle of scenario A: one position, 20 USD. *)
Lemma X3_witness :
  (getTotalPositionValue sim.scenarioB).1 =
    repeated (size (positions (self sim.scenarioB)))
      (config.PositionSizeUSD (config (self sim.scenarioB))) /\
  ((getTotalPositionValue sim.scenarioB).1 <=?
     config.MaxPositionUSD (config (self sim.scenarioB))) = true.
Proof.
  destruct (X3_exposure_of_runs sim.scenarioB scenarioB_reachable)
    as (_ & _ & _ & Hsum & Hcap).
  split; [exact Hsum|].
  destruct Hcap as [_ Hle].
  - intros Hempty.
    apply (f_equal (fun ps => ps !! "BTC-USD")) in Hempty.
    vm_compute in Hempty. discriminate.
  - apply Hle; vm_compute; reflexivity.
Defined.

(** X4 after the first cycle of scenario A and after the second. *)
Lemma X4_witness :
  mu (self sim.scenarioB) = false /\
  mu (self (exec checkFundingRates sim.scenarioB)) = false.
Proof.
  destruct (X4_mutex_and_wiring sim.scenarioB) as (Hfree & _ & Hkeep).
  split; [|apply Hkeep]; apply Hfree, scenarioB_reachable.
Defined.

(** X5 after a cycle of scenario A run without a notifier. *)
Lemma X5_witness : absent is_notify (trace scenarios.silentB).
Proof.
  apply X5_nil_notifier_is_silent.
  - apply reachable_cycle, reachable_new.
  - vm_compute. reflexivity.
Defined.

(** X6 in scenario A, which has a notifier. *)
Lemma X6_witness :
  each_call_reported
    (since sim.scenarioA
       (exec (executeArbitrage "BTC-USD" sim.Extended sim.Lighter (f64.ratio 4 10000))
             sim.scenarioA)) /\
  each_call_reported
    (since sim.scenarioA (exec (closeArbitrage sim.heldBTC) sim.scenarioA)).
Proof.
  apply (X6_each_call_is_reported "BTC-USD" sim.Extended sim.Lighter
           (f64.ratio 4 10000) sim.heldBTC sim.scenarioA).
  vm_compute. reflexivity.
Defined.

(** X7 on scenario A with and without its notifier. *)
Lemma X7_witness :
  same_but_notifier (exec checkFundingRates sim.scenarioA)
    (exec checkFundingRates scenarios.silentA).
Proof.
  apply (X7_notifier_does_not_interfere sim.scenarioA scenarios.silentA).
  repeat split.
Defined.

(** X8 on a run that receives a tick, the stop signal and a tick. *)
Lemma X8_witness :
  exec (Run [Tick; Stop; Tick]) sim.scenarioA =
    exec (Run [Tick]) sim.scenarioA /\
  reachable (exec (Run [Tick; Stop; Tick]) sim.scenarioA).
Proof.
  destruct (X8_run [Tick; Stop; Tick] sim.scenarioA) as (Heq & Hreach & _).
  split; [exact Heq|]. apply Hreach, reachable_new.
Defined.

(** X9 on the first cycle of scenario A. *)
Lemma X9_witness :
  Forall (about_quoted sim.cfgBTC sim.ratesA1 sim.ratesA2)
         (since sim.scenarioA (exec checkFundingRates sim.scenarioA)).
Proof.
  apply (X9_only_configured_quoted_markets
           [sim.quote "BTC-USD" (f64.ratio 5 10000)] (world sim.scenarioA)
           [sim.quote "BTC-USD" (f64.ratio 1 10000)] (world sim.scenarioA)
           sim.scenarioA).
  - apply reachable_new.
  - reflexivity.
  - reflexivity.
Defined.

(** X10 on the second cycle of scenario A: the quotes have not moved and
    the position is held. *)
Lemma X10_witness :
  positions (self (exec checkFundingRates sim.scenarioB)) =
    positions (self sim.scenarioB) /\
  world (exec checkFundingRates sim.scenarioB) = world sim.scenarioB /\
  since sim.scenarioB (exec checkFundingRates sim.scenarioB) =
    [stamp (EvGetFundingRates sim.Lighter
              (exchange.Ok [sim.quote "BTC-USD" (f64.ratio 5 10000)])) sim.scenarioB;
     stamp (EvGetFundingRates sim.Extended
              (exchange.Ok [sim.quote "BTC-USD" (f64.ratio 1 10000)])) sim.scenarioB].
Proof.
  apply (X10_calm_cycle
           [sim.quote "BTC-USD" (f64.ratio 5 10000)] (world sim.scenarioB)
           [sim.quote "BTC-USD" (f64.ratio 1 10000)] (world sim.scenarioB)
           sim.scenarioB).
  - vm_compute. discriminate.
  - reflexivity.
  - reflexivity.
  - apply Forall_cons_2; [|apply Forall_nil_2].
    left. split; vm_compute; reflexivity.
Defined.

(** X11 with Lighter, which fills every order, as the long venue and the
    closed venue as the short one: three evaluations, three long orders. *)
Lemma X11_witness :
  let m' :=
    Nat.iter 3
      (exec (evaluateMarket scenarios.ratesLow scenarios.ratesHigh "BTC-USD"))
      scenarios.wiredClosed in
  positions (self m') = positions (self scenarios.wiredClosed) /\
  count (is_leg_success exchange.Buy) (since scenarios.wiredClosed m') = 3%nat /\
  count (is_leg_success exchange.Sell) (since scenarios.wiredClosed m') = 0%nat.
Proof.
  apply (X11_stray_long_legs_pile_up scenarios.ratesLow scenarios.ratesHigh
           "BTC-USD" (f64.ratio 1 10000) (f64.ratio 5 10000)
           (f64.of_Z 60000) 3 scenarios.wiredClosed).
  - vm_compute. reflexivity.
  - vm_compute. reflexivity.
  - vm_compute. reflexivity.
  - vm_compute. reflexivity.
  - intros visited Hperm.
    change (positions (self scenarios.wiredClosed))
      with (∅ : gmap string (PositionInfo (trade.Venue scenarios.Closed)))
      in Hperm.
    rewrite map_to_list_empty in Hperm.
    apply Permutation_nil_r in Hperm as ->.
    vm_compute. reflexivity.
  - reflexivity.
  - intros w amount limit. eexists. eexists. reflexivity.
  - intros w amount limit. eexists. eexists. reflexivity.
Defined.

(** X12 on the strategy of [cmd/trade] over two ticks. *)
Lemma X12_witness :
  let m' := exec (Run [Tick; Tick; Stop]) scenarios.wiredSim in
  self m' = self scenarios.wiredSim /\
  length (since scenarios.wiredSim m') = 2%nat /\
  Forall (fun en => exists e,
            en = stamp (EvGetFundingRates (exchange1 (self scenarios.wiredSim))
                          (exchange.Err e)) scenarios.wiredSim)
         (since scenarios.wiredSim m').
Proof.
  apply (X12_first_venue_down [Tick; Tick; Stop] scenarios.wiredSim).
  intros w. eexists. eexists. reflexivity.
Defined.

(** X16 on the scripted SDK, which lists BTC-USD and ETH-USD. *)
Lemma X16_witness :
  (extended.GetFundingRates simsdk.venue simsdk.start).1 =
    exchange.Ok [sim.quote "BTC-USD" (f64.ratio 5 10000);
                 sim.quote "ETH-USD" (f64.ratio 2 10000)] /\
  is_Some (ratesMap [sim.quote "BTC-USD" (f64.ratio 5 10000);
                     sim.quote "ETH-USD" (f64.ratio 2 10000)] !! "ETH-USD").
Proof.
  assert (extended.GetMarkets (extended.client simsdk.venue) []
            (extended.outside simsdk.start) =
          (exchange.Ok [("BTC-USD", f64.ratio 5 10000); ("ETH-USD", f64.ratio 2 10000)],
           extended.outside simsdk.start)) as Hlisted
    by (vm_compute; reflexivity).
  destruct (X16_extended_quotes simsdk.venue simsdk.start
              [("BTC-USD", f64.ratio 5 10000); ("ETH-USD", f64.ratio 2 10000)]
              (extended.outside simsdk.start) Hlisted) as [Hrun Hdom].
  split.
  - rewrite Hrun. reflexivity.
  - apply Hdom. apply list_elem_of_In. right. left. reflexivity.
Defined.

(** X17 on a market order that the scripted SDK accepts. *)
Lemma X17_witness :
  exists rest,
    extended.calls
      (extended.PlaceOrder simsdk.venue "BTC-USD" exchange.Buy exchange.Market
         (f64.ratio 1 3000) (f64.of_Z 60000) simsdk.start).2 =
      extended.CallGetMarkets (extended.client simsdk.venue) ["BTC-USD"]
        :: rest /\
    extended.count_calls extended.is_submit rest = 1%nat.
Proof.
  destruct (X17_extended_call_budget simsdk.venue "BTC-USD" exchange.Buy
              exchange.Market (f64.ratio 1 3000) (f64.of_Z 60000)
              simsdk.start)
    as (rest & Hcalls & _ & _ & _ & Hok).
  exists rest. split; [exact Hcalls|].
  edestruct Hok as [Hone _]; [|exact Hone].
  vm_compute. reflexivity.
Defined.

(** X19 on a venue built for the testnet and then set to the mainnet. *)
Lemma X19_witness :
  let e := extended.SetTestnet false simsdk.venue in
  exists rest,
    extended.calls
      (extended.PlaceOrder e "BTC-USD" exchange.Sell exchange.Market
         (f64.ratio 1 3000) f64.zero simsdk.start).2 =
      extended.CallGetMarkets (extended.client e) ["BTC-USD"] :: rest /\
    Forall (extended.goes_to true false false)
      (extended.CallGetMarkets (extended.client e) ["BTC-USD"] :: rest).
Proof.
  apply (X19_extended_network_split "key" "secret" "public" 7 true false
           simsdk.venue "BTC-USD" exchange.Sell exchange.Market
           (f64.ratio 1 3000) f64.zero simsdk.start).
  vm_compute. reflexivity.
Defined.

(** X20 on the position of scenario B. *)
Lemma X20_witness :
  exists price r1 r2,
    placeholderPrice "BTC-USD" = Some price /\
    legs_of (self sim.scenarioB) sim.Extended sim.Lighter /\
    map event
      (quiet (since sim.scenarioB
                (exec (closeArbitrage sim.heldBTC) sim.scenarioB))) =
      [EvCloseArbitrage sim.heldBTC;
       EvClosePosition sim.Extended "BTC-USD" exchange.Buy
         (f64.of_Z 20 / price) r1;
       EvClosePosition sim.Lighter "BTC-USD" exchange.Sell
         (f64.of_Z 20 / price) r2].
Proof.
  apply (X20_close_mirrors_open "BTC-USD" sim.heldBTC sim.scenarioB).
  - exact scenarioB_reachable.
  - vm_compute. reflexivity.
Defined.

(** A market order to buy on the scripted SDK, call by call: the price
    sent is the mark price of 60000 raised by five per cent, the price
    answered is the one [PlaceOrder] was called with. *)
Example simsdk_market_order :
  let run :=
    extended.PlaceOrder simsdk.venue "BTC-USD" exchange.Buy exchange.Market
      (f64.ratio 1 3000) f64.zero simsdk.start in
  run.1 =
    exchange.Ok (exchange.mkOrder "41" "BTC-USD" exchange.Buy exchange.Market
                   f64.zero (f64.ratio 1 3000) f64.zero "NEW" 1700000001) /\
  extended.calls run.2 =
    [extended.CallGetMarkets (extended.client simsdk.venue) ["BTC-USD"];
     extended.CallNow;
     extended.CallRoundTrip "GET"
       "https://api.starknet.sepolia.extended.exchange/api/v1/info/markets/BTC-USD/stats"
       "key" "";
     extended.CallCreateOrderObject
       (extended.mkParams ("BTC-USD", f64.ratio 5 10000) "key"
          (f64.ratio 1 3000) extended.OrderSideBuy
          (extended.mkStarknetDomain "Perpetuals" "v0" "SN_SEPOLIA" "1")
          1700000000 extended.TimeInForceIOC (f64.of_Z 63000));
     extended.CallSubmitOrder (extended.client simsdk.venue)
       (extended.mkParams ("BTC-USD", f64.ratio 5 10000) "key"
          (f64.ratio 1 3000) extended.OrderSideBuy
          (extended.mkStarknetDomain "Perpetuals" "v0" "SN_SEPOLIA" "1")
          1700000000 extended.TimeInForceIOC (f64.of_Z 63000));
     extended.CallNow].
Proof. split; vm_compute; reflexivity. Qed.
